(** * Wave-Graph Grammar-Core: a shallow embedding of
      [wave_graph_grammar_core.py] and the properties of its generation
      pipeline.

    Conventions of the embedding.
    - Python [str] is [string], the UTF-8 bytes of the text.  Suffix tests
      and slices at an ASCII character are the same on bytes and on
      characters.  [lower] maps the ASCII letters and U+0130, the one
      character outside ASCII whose lowercase form starts with an ASCII
      vowel; [upper] maps the ASCII letters.  Statements that need more of
      the case mapping than that carry the hypothesis that the string is
      ASCII.
    - Python [dict] is an insertion-ordered association list ([PyDict.set]
      overwrites in place, appends a new key at the end), because
      [Lexicon.words_for_pos] iterates the dictionary and [random.choice]
      indexes the result.
    - Python [float] is an abstract carrier with the two operations the
      program uses ([+] and [math.tanh]) and the decimal literals of the
      source; the real numbers are one instance.
    - The module-level generator of [random] is a state threaded through
      every call: [random.seed] resets it, [random.choice] advances it.
    - Exceptions are a [Raise] outcome; the interpreter's recursion limit is
      the [depth] argument of [_expand]. *)

From Stdlib Require Import String Ascii List Bool Arith Lia ZArith Reals Lra.
From Stdlib Require Import DecimalString.
Import ListNotations.
Local Open Scope list_scope.
Local Open Scope string_scope.

(* ------------------------------------------------------------------ *)
(** ** Python string primitives *)
(* ------------------------------------------------------------------ *)

Module PyStr.

Definition is_upper (c : ascii) : bool :=
  (65 <=? nat_of_ascii c)%nat && (nat_of_ascii c <=? 90)%nat.

Definition is_lower (c : ascii) : bool :=
  (97 <=? nat_of_ascii c)%nat && (nat_of_ascii c <=? 122)%nat.

Definition is_alpha (c : ascii) : bool := is_upper c || is_lower c.

Definition lower_char (c : ascii) : ascii :=
  if is_upper c then ascii_of_nat (nat_of_ascii c + 32) else c.

Definition upper_char (c : ascii) : ascii :=
  if is_lower c then ascii_of_nat (nat_of_ascii c - 32) else c.

Fixpoint map_str (f : ascii -> ascii) (s : string) : string :=
  match s with
  | EmptyString => EmptyString
  | String c r => String (f c) (map_str f r)
  end.

(** [s.lower()].  ASCII letters are mapped as [str.lower] maps them.  The
    capital I with a dot, U+0130 (bytes C4 B0), becomes "i" followed by the
    combining dot U+0307 (bytes CC 87), as in Python: it is the only
    character outside ASCII whose lowercase form starts with one of a, e,
    i, o, u, and no character outside ASCII has the lowercase form "a".
    Every other byte outside ASCII is left as it is. *)
Fixpoint lower (s : string) : string :=
  match s with
  | EmptyString => EmptyString
  | String c r =>
      match r with
      | String d r' =>
          if Ascii.eqb c "196" && Ascii.eqb d "176"
          then String "i" (String "204" (String "135" (lower r')))
          else String (lower_char c) (lower r)
      | EmptyString => String (lower_char c) EmptyString
      end
  end.

(** [s.upper()] on the ASCII letters; bytes outside ASCII are left as they
    are. *)
Definition upper (s : string) : string := map_str upper_char s.

(** [s.endswith(suf)]. *)
Definition endswith (s suf : string) : bool :=
  (String.length suf <=? String.length s)%nat
  && String.eqb (substring (String.length s - String.length suf)
                           (String.length suf) s) suf.

(** [s.endswith((a, b, ...))]: true when one of the suffixes matches. *)
Definition endswith_any (s : string) (sufs : list string) : bool :=
  existsb (endswith s) sufs.

(** [s.startswith(p)]. *)
Fixpoint startswith (s p : string) : bool :=
  match p, s with
  | EmptyString, _ => true
  | String _ _, EmptyString => false
  | String a p', String b s' => Ascii.eqb a b && startswith s' p'
  end.

(** [sub in s] for strings. *)
Fixpoint contains (s sub : string) : bool :=
  startswith s sub
  || match s with
     | EmptyString => false
     | String _ r => contains r sub
     end.

(** [s[:-1]]. *)
Definition drop_last (s : string) : string :=
  substring 0 (String.length s - 1) s.

(** [s[-k]] for [1 <= k <= len(s)]; [None] stands for [IndexError]. *)
Definition from_end (s : string) (k : nat) : option ascii :=
  if (1 <=? k)%nat && (k <=? String.length s)%nat
  then String.get (String.length s - k) s
  else None.

(** [sep.join(parts)]. *)
Fixpoint join (sep : string) (parts : list string) : string :=
  match parts with
  | [] => EmptyString
  | [x] => x
  | x :: rest => x ++ sep ++ join sep rest
  end.

Fixpoint drop (n : nat) (s : string) : string :=
  match n, s with
  | 0, _ => s
  | S _, EmptyString => EmptyString
  | S k, String _ r => drop k r
  end.

(** [s.replace(old, new)] for a non-empty [old]: the leftmost occurrences
    that do not overlap, scanned left to right.  [skip] counts the
    characters of a matched occurrence still to be dropped. *)
Fixpoint replace_from (old new : string) (skip : nat) (s : string) : string :=
  match s with
  | EmptyString => EmptyString
  | String c r =>
      match skip with
      | S k => replace_from old new k r
      | 0 =>
          if startswith s old
          then new ++ replace_from old new (String.length old - 1) r
          else String c (replace_from old new 0 r)
      end
  end.

(** With an empty [old] Python puts [new] before every character and at
    the end. *)
Fixpoint intersperse (new s : string) : string :=
  match s with
  | EmptyString => new
  | String c r => new ++ String c (intersperse new r)
  end.

Definition replace (s old new : string) : string :=
  match old with
  | EmptyString => intersperse new s
  | String _ _ => replace_from old new 0 s
  end.

(** ["  " * n]. *)
Fixpoint repeat_str (s : string) (n : nat) : string :=
  match n with
  | 0 => EmptyString
  | S k => s ++ repeat_str s k
  end.

Definition first_char (s : string) : option ascii :=
  match s with
  | EmptyString => None
  | String c _ => Some c
  end.

Fixpoint last_char (s : string) : option ascii :=
  match s with
  | EmptyString => None
  | String c EmptyString => Some c
  | String _ r => last_char r
  end.

End PyStr.

(* ------------------------------------------------------------------ *)
(** ** Python dictionaries, in insertion order *)
(* ------------------------------------------------------------------ *)

Module PyDict.

Section Dict.
Context {V : Type}.

Definition dict := list (string * V).

(** [d.get(k)]. *)
Fixpoint get (d : dict) (k : string) : option V :=
  match d with
  | [] => None
  | (k', v) :: r => if String.eqb k' k then Some v else get r k
  end.

(** [k in d]. *)
Definition mem (d : dict) (k : string) : bool :=
  match get d k with Some _ => true | None => false end.

(** [d[k] = v]: an existing key keeps its place, a new one goes last. *)
Fixpoint set (d : dict) (k : string) (v : V) : dict :=
  match d with
  | [] => [(k, v)]
  | (k', v') :: r =>
      if String.eqb k' k then (k', v) :: r else (k', v') :: set r k v
  end.

Definition keys (d : dict) : list string := map fst d.
End Dict.

Arguments dict : clear implicits.

End PyDict.

(* ------------------------------------------------------------------ *)
(** ** Floats *)
(* ------------------------------------------------------------------ *)

(** The float operations the program performs.  [fdec m e] is the literal
    written [m / 10^e] in the source ([fdec 2 1] is [0.2], [fdec (-9) 1] is
    [-0.9]). *)
Class FloatOps (F : Type) := {
  fdec : Z -> nat -> F;
  fadd : F -> F -> F;
  ftanh : F -> F
}.

(** The idealised instance: real arithmetic.  Floats round, so [math.tanh]
    reaches [1.0] and [-1.0] where the real [tanh] stays strictly inside;
    the statements over [R] below are those that rounding keeps: closed
    bounds and symmetries, for inputs that are numbers. *)
#[export] Instance RealFloat : FloatOps R := {
  fdec m e := (IZR m / 10 ^ e)%R;
  fadd := Rplus;
  ftanh := tanh
}.

(** An instance that computes: float expressions kept as terms. *)
Inductive fterm : Type :=
| FLit (m : Z) (e : nat)
| FAdd (a b : fterm)
| FTanh (a : fterm).

#[export] Instance TermFloat : FloatOps fterm := {
  fdec := FLit;
  fadd := FAdd;
  ftanh := FTanh
}.

(* ------------------------------------------------------------------ *)
(** ** Lexicon *)
(* ------------------------------------------------------------------ *)

Section LexiconDefs.
Context {F : Type} `{FloatOps F}.

Record LexEntry := mkLexEntry { pos : string; polarity : F }.

(** A [Lexicon] object is its [entries] dictionary. *)
Definition Lexicon := PyDict.dict LexEntry.

Definition Lexicon_init : Lexicon :=
  [ ("the", mkLexEntry "DET" (fdec 0 1));
    ("a", mkLexEntry "DET" (fdec 0 1));
    ("an", mkLexEntry "DET" (fdec 0 1));
    ("cat", mkLexEntry "NOUN" (fdec 2 1));
    ("dog", mkLexEntry "NOUN" (fdec 3 1));
    ("child", mkLexEntry "NOUN" (fdec 4 1));
    ("war", mkLexEntry "NOUN" (fdec (-9) 1));
    ("love", mkLexEntry "NOUN" (fdec 9 1));
    ("see", mkLexEntry "VERB" (fdec 0 1));
    ("like", mkLexEntry "VERB" (fdec 6 1));
    ("chase", mkLexEntry "VERB" (fdec (-1) 1));
    ("hate", mkLexEntry "VERB" (fdec (-7) 1));
    ("adore", mkLexEntry "VERB" (fdec 8 1));
    ("happy", mkLexEntry "ADJ" (fdec 8 1));
    ("sad", mkLexEntry "ADJ" (fdec (-6) 1));
    ("brave", mkLexEntry "ADJ" (fdec 5 1));
    ("angry", mkLexEntry "ADJ" (fdec (-5) 1)) ].

Definition Lexicon_add (lex : Lexicon) (word pos : string) (polarity : F)
  : Lexicon :=
  PyDict.set lex (PyStr.lower word) (mkLexEntry (PyStr.upper pos) polarity).

Definition Lexicon_get (lex : Lexicon) (word : string) : option LexEntry :=
  PyDict.get lex (PyStr.lower word).

Definition words_for_pos (lex : Lexicon) (pos_ : string) : list string :=
  let p := PyStr.upper pos_ in
  map fst (filter (fun we => String.eqb (pos (snd we)) p) lex).
End LexiconDefs.

Arguments LexEntry : clear implicits.
Arguments Lexicon : clear implicits.

(* ------------------------------------------------------------------ *)
(** ** Morphology *)
(* ------------------------------------------------------------------ *)

Module Morphology.

Definition VOWELS : list ascii := list_ascii_of_string "aeiou".

Definition in_VOWELS (c : option ascii) : bool :=
  match c with
  | Some c => existsb (Ascii.eqb c) VOWELS
  | None => false
  end.

Definition pluralize (noun : string) : string :=
  if PyStr.endswith noun "y" && (1 <? String.length noun)%nat
     && negb (in_VOWELS (PyStr.from_end noun 2))
  then PyStr.drop_last noun ++ "ies"
  else if PyStr.endswith_any noun ["s"; "x"; "z"; "ch"; "sh"]
  then noun ++ "es"
  else noun ++ "s".

Definition third_person_singular (verb_base : string) : string :=
  if PyStr.endswith verb_base "y" && (1 <? String.length verb_base)%nat
     && negb (in_VOWELS (PyStr.from_end verb_base 2))
  then PyStr.drop_last verb_base ++ "ies"
  else if PyStr.endswith_any verb_base ["s"; "x"; "z"; "ch"; "sh"]
  then verb_base ++ "es"
  else verb_base ++ "s".

Definition past_tense (verb_base : string) : string :=
  if PyStr.endswith verb_base "e"
  then verb_base ++ "d"
  else if PyStr.endswith verb_base "y" && (1 <? String.length verb_base)%nat
          && negb (in_VOWELS (PyStr.from_end verb_base 2))
  then PyStr.drop_last verb_base ++ "ied"
  else verb_base ++ "ed".

End Morphology.


(* ------------------------------------------------------------------ *)
(** ** Grammar *)
(* ------------------------------------------------------------------ *)

(** A component of a tuple that is no slot marker: a [str] or an [int]. *)
Inductive PyAtom : Type :=
| AStr (s : string)
| AInt (n : Z).

(** A symbol as [_expand] tells them apart with [isinstance]: a [str]; a
    [tuple] that is a slot marker, its first component the slot name and
    its second the attribute map; any other [tuple] of strings and
    integers, such as [(42,)], [()] or [("<NOUN>",)]; or an object that is
    neither a [str] nor a [tuple] (an [int], say). *)
Inductive Symbol : Type :=
| SymStr (s : string)
| SymSlot (name : string) (attrs : list (string * string))
| SymOther (obj : Z)
| SymTuple (items : list PyAtom).

Record Rule := mkRule { lhs : string; rhs : list (list Symbol) }.

Record Grammar := mkGrammar { rules : PyDict.dict Rule; start : string }.

Definition add_rule (g : Grammar) (l : string) (r : list (list Symbol))
  : Grammar :=
  mkGrammar (PyDict.set (rules g) l (mkRule l r)) (start g).

Definition has (g : Grammar) (nonterminal : string) : bool :=
  PyDict.mem (rules g) nonterminal.

Definition nt (names : list string) : list Symbol := map SymStr names.

Definition slot (name : string) : Symbol := SymSlot name [].

Definition _seed_rules (g : Grammar) : Grammar :=
  let g := add_rule g "S" [nt ["CLAUSE"]; nt ["Q"]; nt ["IMP"]] in
  let g := add_rule g "CLAUSE" [nt ["NP"; "VP"]; nt ["NP"; "VP"; "PP"]] in
  let g := add_rule g "NP" [nt ["DET"; "N"]; nt ["DET"; "ADJ"; "N"]; nt ["N"]] in
  let g := add_rule g "VP" [nt ["V"; "NP"]; nt ["V"]; nt ["V"; "ADJ"]] in
  let g := add_rule g "PP" [nt ["P"; "NP"]] in
  let g := add_rule g "Q" [nt ["AUX"; "NP"; "V"; "NP"; "?"];
                           nt ["WH"; "V"; "NP"; "?"]] in
  let g := add_rule g "IMP" [nt ["V"; "NP"]; nt ["V"]] in
  let g := add_rule g "DET" [[slot "<DET>"]] in
  let g := add_rule g "N" [[slot "<NOUN>"]] in
  let g := add_rule g "V" [[slot "<VERB>"]] in
  let g := add_rule g "ADJ" [[slot "<ADJ>"]] in
  let g := add_rule g "P" [[slot "<P>"]] in
  let g := add_rule g "AUX" [[slot "<AUX>"]] in
  let g := add_rule g "WH" [[slot "<WH>"]] in
  add_rule g "?" [nt ["?"]].

Definition Grammar_init : Grammar := _seed_rules (mkGrammar [] "S").

(* ------------------------------------------------------------------ *)
(** ** The shared random stream, exceptions *)
(* ------------------------------------------------------------------ *)

(** The state of the module-level generator: the raw numbers it will give
    and how many were taken. *)
Record RandomState := mkRandom { stream : nat -> nat; cursor : nat }.

Inductive exn : Type :=
| ValueError (msg : string)
| IndexError (msg : string)
| KeyError (key : string)
| RecursionError.

Inductive outcome (A : Type) : Type :=
| Ok (a : A)
| Raise (e : exn).
Arguments Ok {A} a.
Arguments Raise {A} e.

(** Code that draws from the shared stream and may raise. *)
Definition M (A : Type) : Type := RandomState -> outcome (A * RandomState).

Definition ret {A} (a : A) : M A := fun st => Ok (a, st).

Definition raise {A} (e : exn) : M A := fun _ => Raise e.

Definition bind {A B} (m : M A) (k : A -> M B) : M B :=
  fun st => match m st with
            | Ok (a, st') => k a st'
            | Raise e => Raise e
            end.

Notation "x <- m ;; k" := (bind m (fun x => k))
  (at level 61, m at next level, right associativity).
Notation "' p <- m ;; k" := (bind m (fun x => match x with p => k end))
  (at level 61, p pattern, m at next level, right associativity).

(** [random._randbelow(n)] for [n > 0]: the next raw number, brought
    below [n].  Which numbers the stream holds is left open; what matters is
    that every call reads the position after the one before. *)
Definition randbelow (n : nat) (st : RandomState) : nat :=
  stream st (cursor st) mod n.

Definition advance (st : RandomState) : RandomState :=
  mkRandom (stream st) (S (cursor st)).

(** [random.choice(seq)]. *)
Definition random_choice {A} (seq : list A) : M A :=
  fun st =>
    match seq with
    | [] => Raise (IndexError "Cannot choose from an empty sequence")
    | d :: _ => Ok (nth (randbelow (length seq) st) seq d, advance st)
    end.

(** [random.seed(seed)]: [prng seed] is the raw sequence the generator
    gives once seeded with [seed]. *)
Definition random_seed (prng : Z -> nat -> nat) (seed : Z) : M unit :=
  fun _ => Ok (tt, mkRandom (prng seed) 0).

(* ------------------------------------------------------------------ *)
(** ** Emotion field *)
(* ------------------------------------------------------------------ *)

Section EmotionDefs.
Context {F : Type} `{FloatOps F}.

Record EmotionField := mkEmotion { valence : F }.

Definition combine (self other : EmotionField) : EmotionField :=
  let v := ftanh (fadd (valence self) (valence other)) in
  mkEmotion v.

Definition from_word (word : string) (lex : Lexicon F) : EmotionField :=
  match Lexicon_get lex word with
  | Some e => mkEmotion (polarity e)
  | None => mkEmotion (fdec 0 1)
  end.

End EmotionDefs.

Arguments EmotionField : clear implicits.

(* ------------------------------------------------------------------ *)
(** ** Derivation trees *)
(* ------------------------------------------------------------------ *)

#[warning="-register-all"]
Inductive DerivationNode : Type :=
| mkNode (symbol : string) (children : list DerivationNode)
         (token : option string).

Definition newline : string := String (ascii_of_nat 10) EmptyString.

Fixpoint pretty (self : DerivationNode) (indent : nat) : string :=
  match self with
  | mkNode symbol children token =>
      let pad := PyStr.repeat_str "  " indent in
      match token with
      | Some t => pad ++ symbol ++ " → '" ++ t ++ "'" ++ newline
      | None =>
          fold_left (fun out ch => out ++ pretty ch (indent + 1))
                    children (pad ++ symbol ++ newline)
      end
  end.

(* ------------------------------------------------------------------ *)
(** ** Sentence generator *)
(* ------------------------------------------------------------------ *)

Section GeneratorDefs.
Context {F : Type} `{FloatOps F}.

Record SentenceGenerator := mkGenerator {
  g : Grammar;
  lex : Lexicon F;
  functional_words : PyDict.dict (list string)
}.

(** [SentenceGenerator.__init__]: a seed, when given, reseeds the shared
    stream. *)
Definition SentenceGenerator_init (prng : Z -> nat -> nat)
    (grammar : Grammar) (lexicon : Lexicon F) (seed : option Z)
  : M SentenceGenerator :=
  _ <- match seed with
       | Some s => random_seed prng s
       | None => ret tt
       end ;;
  ret (mkGenerator grammar lexicon
         [ ("<P>", ["with"; "without"; "near"; "against"]);
           ("<AUX>", ["does"; "did"; "will"]);
           ("<WH>", ["why"; "how"; "what"; "who"]) ]).

(** [xs or [d]]. *)
Definition or_default (xs : list string) (d : string) : list string :=
  match xs with
  | [] => [d]
  | _ :: _ => xs
  end.

Definition _choose_for_pos (self : SentenceGenerator) (slot_ : string)
  : M string :=
  match PyDict.get (functional_words self) slot_ with
  | Some ws => random_choice ws
  | None =>
      if String.eqb slot_ "<DET>" then random_choice ["the"; "a"; "an"]
      else if String.eqb slot_ "<NOUN>"
      then random_choice (or_default (words_for_pos (lex self) "NOUN") "cat")
      else if String.eqb slot_ "<VERB>"
      then random_choice (or_default (words_for_pos (lex self) "VERB") "see")
      else if String.eqb slot_ "<ADJ>"
      then random_choice (or_default (words_for_pos (lex self) "ADJ") "happy")
      else ret EmptyString
  end.

(** [str(a)], as [pretty] shows the symbol of a node. *)
Definition atom_str (a : PyAtom) : string :=
  match a with
  | AStr s => s
  | AInt n => NilZero.string_of_int (Z.to_int n)
  end.

(** [_choose_for_pos(sym[0])] for the first component of a tuple: an [int]
    is no key of [functional_words] and equals none of the slot names, so
    the fallback answers. *)
Definition choose_for_first (self : SentenceGenerator) (a : PyAtom)
  : M string :=
  match a with
  | AStr name => _choose_for_pos self name
  | AInt _ => ret EmptyString
  end.

(** The [for sym in choice] loop of [_expand]; [rec] is the recursive
    call.  Every tuple takes the slot branch; [sym[0]] of the empty tuple
    is [IndexError]. *)
Fixpoint expand_loop (rec : string -> M (DerivationNode * list string))
    (self : SentenceGenerator) (choice : list Symbol)
    (children : list DerivationNode) (tokens : list string)
  : M (list DerivationNode * list string) :=
  match choice with
  | [] => ret (children, tokens)
  | sym :: rest =>
      match sym with
      | SymSlot name _ =>
          word <- _choose_for_pos self name ;;
          expand_loop rec self rest
            (children ++ [mkNode name [] (Some word)])%list
            (tokens ++ [word])%list
      | SymStr s =>
          '(node, toks) <- rec s ;;
          expand_loop rec self rest
            (children ++ [node])%list (tokens ++ toks)%list
      | SymTuple [] => raise (IndexError "tuple index out of range")
      | SymTuple (first :: _) =>
          word <- choose_for_first self first ;;
          expand_loop rec self rest
            (children ++ [mkNode (atom_str first) [] (Some word)])%list
            (tokens ++ [word])%list
      | SymOther _ => raise (ValueError "Unknown symbol type")
      end
  end.

Definition expand_body (rec : string -> M (DerivationNode * list string))
    (self : SentenceGenerator) (symbol : string)
  : M (DerivationNode * list string) :=
  if negb (has (g self) symbol)
  then ret (mkNode symbol [] (Some symbol), [symbol])
  else
    match PyDict.get (rules (g self)) symbol with
    | None => raise (KeyError symbol)
    | Some rule =>
        choice <- random_choice (rhs rule) ;;
        '(children, tokens) <- expand_loop rec self choice [] [] ;;
        ret (mkNode symbol children None, tokens)
    end.

(** [_expand]; [depth] is the number of nested calls the interpreter still
    allows, and going past it is [RecursionError]. *)
Fixpoint _expand (depth : nat) (self : SentenceGenerator) (symbol : string)
  : M (DerivationNode * list string) :=
  match depth with
  | 0 => raise RecursionError
  | S d => expand_body (_expand d self) self symbol
  end.

(** The rewrite of one token of [_postprocess], given the token list and
    the index. *)
Definition fix_article (tokens : list string) (i : nat) (tok : string)
  : string :=
  if String.eqb (PyStr.lower tok) "a" && (i + 1 <? length tokens)%nat
  then
    let nxt := PyStr.lower (nth (i + 1) tokens EmptyString) in
    match nxt with
    | EmptyString => tok
    | String c _ =>
        if PyStr.contains "aeiou" (String c EmptyString) then "an" else tok
    end
  else tok.

(** The [while i < len(tokens)] loop; [n] bounds the iterations left. *)
Fixpoint postprocess_loop (n : nat) (tokens : list string) (i : nat)
    (out : list string) : list string :=
  match n with
  | 0 => out
  | S n' =>
      if (i <? length tokens)%nat
      then
        let tok := nth i tokens EmptyString in
        let tok := fix_article tokens i tok in
        postprocess_loop n' tokens (i + 1) (out ++ [tok])%list
      else out
  end.

Definition _postprocess (tokens : list string) : list string :=
  postprocess_loop (length tokens) tokens 0 [].

(** [_linearize]; indexing the empty string is [IndexError]. *)
Definition _linearize (tokens : list string) : outcome string :=
  match tokens with
  | [] => Ok EmptyString
  | _ :: _ =>
      let s := PyStr.join " " tokens in
      let s := PyStr.replace (PyStr.replace s " ?" "?") " ," "," in
      match s with
      | EmptyString => Raise (IndexError "string index out of range")
      | String c r =>
          let s := String (PyStr.upper_char c) r in
          if negb (PyStr.endswith_any s ["."; "?"; "!"])
          then Ok (s ++ ".")
          else Ok s
      end
  end.

Definition lift {A} (o : outcome A) : M A :=
  fun st => match o with
            | Ok a => Ok (a, st)
            | Raise e => Raise e
            end.

(** The [for t in tokens] loop of [generate]. *)
Definition fold_valence (lexicon : Lexicon F) (tokens : list string)
    (field : EmotionField F) : EmotionField F :=
  fold_left
    (fun field t => combine field (from_word (PyStr.lower t) lexicon))
    tokens field.

Definition generate (depth : nat) (self : SentenceGenerator)
  : M (string * DerivationNode * EmotionField F) :=
  '(tree, tokens) <- _expand depth self (start (g self)) ;;
  let tokens := _postprocess tokens in
  let field := mkEmotion (fdec 0 1) in
  let field := fold_valence (lex self) tokens field in
  sent <- lift (_linearize tokens) ;;
  ret (sent, tree, field).

(** Build a generator, then call [generate] on it at once. *)
Definition construct_and_generate (prng : Z -> nat -> nat) (depth : nat)
    (grammar : Grammar) (lexicon : Lexicon F) (seed : option Z)
  : M (string * DerivationNode * EmotionField F) :=
  gen <- SentenceGenerator_init prng grammar lexicon seed ;;
  generate depth gen.

(** Build two generators, then call [generate] on the first and on the
    second. *)
Definition construct_two_then_generate (prng : Z -> nat -> nat)
    (depth : nat) (grammar : Grammar) (lexicon : Lexicon F) (seed : option Z)
  : M ((string * DerivationNode * EmotionField F)
       * (string * DerivationNode * EmotionField F)) :=
  gen1 <- SentenceGenerator_init prng grammar lexicon seed ;;
  gen2 <- SentenceGenerator_init prng grammar lexicon seed ;;
  r1 <- generate depth gen1 ;;
  r2 <- generate depth gen2 ;;
  ret (r1, r2).

End GeneratorDefs.

Arguments SentenceGenerator : clear implicits.

(* ------------------------------------------------------------------ *)
(** ** Vocabulary of the statements *)
(* ------------------------------------------------------------------ *)

(** The generator [SentenceGenerator(grammar, lexicon)] once built. *)
Definition generator_of {F : Type} `{FloatOps F}
    (grammar : Grammar) (lexicon : Lexicon F) : SentenceGenerator F :=
  mkGenerator grammar lexicon
    [ ("<P>", ["with"; "without"; "near"; "against"]);
      ("<AUX>", ["does"; "did"; "will"]);
      ("<WH>", ["why"; "how"; "what"; "who"]) ].

(** The text of a result, when there is one. *)
Definition text_of {A B C} (o : outcome (string * A * B * C))
  : option string :=
  match o with
  | Ok (s, _, _, _) => Some s
  | Raise _ => None
  end.

(** [s[:-1]] and [s[-1]] of a non-empty string, by recursion. *)
Fixpoint split_last (s : string) : option (string * ascii) :=
  match s with
  | EmptyString => None
  | String c r =>
      match split_last r with
      | None => Some (EmptyString, c)
      | Some (p, l) => Some (String c p, l)
      end
  end.

Definition is_vowel (c : ascii) : bool :=
  (Ascii.eqb c "a" || Ascii.eqb c "e" || Ascii.eqb c "i"
   || Ascii.eqb c "o" || Ascii.eqb c "u")%char.

(** The suffix rule in the words of the specification: a final y after a
    character that is not a vowel becomes ies; after s, x, z, ch or sh comes
    es; otherwise s. *)
Definition ends_y_after_consonant (s : string) : bool :=
  match split_last s with
  | Some (p, c) =>
      Ascii.eqb c "y"
      && match split_last p with
         | Some (_, b) => negb (is_vowel b)
         | None => false
         end
  | None => false
  end.

Definition ends_sibilant (s : string) : bool :=
  match split_last s with
  | Some (p, c) =>
      (Ascii.eqb c "s" || Ascii.eqb c "x" || Ascii.eqb c "z"
       || (Ascii.eqb c "h"
           && match split_last p with
              | Some (_, b) => Ascii.eqb b "c" || Ascii.eqb b "s"
              | None => false
              end))%char
  | None => false
  end.

Definition spec_suffix_rule (s : string) : string :=
  if ends_y_after_consonant s
  then match split_last s with
       | Some (p, _) => p ++ "ies"
       | None => s
       end
  else if ends_sibilant s then s ++ "es"
  else s ++ "s".

(** A token that is the article, in either case. *)
Definition is_article_a (tok : string) : Prop := tok = "a" \/ tok = "A".

(** A token whose first character is one of a, e, i, o, u in either case. *)
Definition vowel_initial (tok : string) : Prop :=
  exists c r, tok = String c r /\ is_vowel (PyStr.lower_char c) = true.

(** A token whose lowercase form starts with one of a, e, i, o, u: the
    test of the code, [nxt.lower()[0] in "aeiou"]. *)
Definition vowel_initial_ci (tok : string) : Prop :=
  exists c r, PyStr.lower tok = String c r /\ is_vowel c = true.

(** A token whose first character is a letter other than those. *)
Definition consonant_initial (tok : string) : Prop :=
  exists c r, tok = String c r /\ PyStr.is_alpha c = true
              /\ is_vowel (PyStr.lower_char c) = false.

(** A rule set in which every symbol is a [str] or a slot tuple. *)
Definition well_typed_symbol (sym : Symbol) : bool :=
  match sym with
  | SymStr _ | SymSlot _ _ => true
  | SymOther _ | SymTuple _ => false
  end.

Definition well_formed (gr : Grammar) : bool :=
  forallb (fun lr => forallb (forallb well_typed_symbol) (rhs (snd lr)))
          (rules gr).

(** A symbol that [isinstance] takes for a [str] or for a [tuple]. *)
Definition accepted_symbol (sym : Symbol) : bool :=
  match sym with
  | SymStr _ | SymSlot _ _ | SymTuple _ => true
  | SymOther _ => false
  end.

(** A rule set in which every rule has an alternative. *)
Definition has_alternatives (gr : Grammar) : bool :=
  forallb (fun lr => match rhs (snd lr) with [] => false | _ :: _ => true end)
          (rules gr).

(** The seed grammar with one malformed rule: an [int] among the symbols
    of [IMP]. *)
Definition grammar_with_int : Grammar :=
  add_rule Grammar_init "IMP" [[SymStr "V"; SymOther 7]].

(** The seed grammar with another malformed rule: the tuple [(42,)] among
    the symbols of [IMP]. *)
Definition grammar_with_bad_tuple : Grammar :=
  add_rule Grammar_init "IMP" [[SymStr "V"; SymTuple [AInt 42]]].

(** The expansion of [symbol] comes to a symbol that is neither a [str]
    nor a [tuple]: in the alternative chosen for [symbol] itself, after the
    symbols before it were expanded, or in the expansion of a nonterminal
    of that alternative, at any depth of nesting. *)
Inductive encounters {F : Type} `{FloatOps F} (self : SentenceGenerator F)
  : nat -> string -> RandomState -> Prop :=
| encounters_here depth symbol rule pre obj post st st1 r :
    PyDict.get (rules (g self)) symbol = Some rule ->
    random_choice (rhs rule) st
    = Ok ((pre ++ SymOther obj :: post)%list, st1) ->
    expand_loop (_expand depth self) self pre [] [] st1 = Ok r ->
    encounters self (S depth) symbol st
| encounters_below depth symbol rule pre s post st st1 children tokens st2 :
    PyDict.get (rules (g self)) symbol = Some rule ->
    random_choice (rhs rule) st
    = Ok ((pre ++ SymStr s :: post)%list, st1) ->
    expand_loop (_expand depth self) self pre [] [] st1
    = Ok (children, tokens, st2) ->
    encounters self depth s st2 ->
    encounters self (S depth) symbol st.

(** The left fold of [combine] over a list of polarities, from neutral. *)
Definition left_fold {F : Type} `{FloatOps F} (ps : list F) : F :=
  fold_left (fun v p => ftanh (fadd v p)) ps (fdec 0 1).

(** The polarity a token contributes: that of the entry stored under its
    lowercase form, and [0.0] when there is none. *)
Definition polarity_of {F : Type} `{FloatOps F} (lexicon : Lexicon F)
    (tok : string) : F :=
  match PyDict.get lexicon (PyStr.lower tok) with
  | Some e => polarity e
  | None => fdec 0 1
  end.

(** A token that starts with an ASCII letter. *)
Definition starts_with_letter (tok : string) : bool :=
  match tok with
  | EmptyString => false
  | String c _ => PyStr.is_alpha c
  end.

(** A lexicon whose NOUN and VERB words all start with a letter. *)
Definition lettered {F : Type} `{FloatOps F} (lexicon : Lexicon F) : bool :=
  forallb starts_with_letter (words_for_pos lexicon "NOUN")
  && forallb starts_with_letter (words_for_pos lexicon "VERB").

(** What the specification asks of a sentence: not empty, an uppercase
    first character, and a last character among [.], [?] and [!]. *)
Definition well_formed_text (text : string) : Prop :=
  text <> EmptyString
  /\ (exists c, PyStr.first_char text = Some c /\ PyStr.is_upper c = true)
  /\ (exists c, PyStr.last_char text = Some c
                /\ In c ["."; "?"; "!"]%char).

(** An outcome that is a result. *)
Definition returns {A : Type} (o : outcome A) : Prop := exists r, o = Ok r.

(** An expansion of [X] that returns an inner node and a token sequence
    whose first token satisfies [P]. *)
Definition begins (P : string -> bool) (X : string)
    (o : outcome (DerivationNode * list string * RandomState)) : Prop :=
  exists children w rest st',
    o = Ok (mkNode X children None, w :: rest, st') /\ P w = true.

(** The triple the determinism property compares. *)
Definition triple_of {F : Type}
    (o : outcome (string * DerivationNode * EmotionField F * RandomState))
  : option (string * string * F) :=
  match o with
  | Ok (text, tree, field, _) => Some (text, pretty tree 0, valence field)
  | Raise _ => None
  end.

(** The two texts of [construct_two_then_generate]. *)
Definition texts_of {A B : Type}
    (o : outcome ((string * A * B) * (string * A * B) * RandomState))
  : option (string * string) :=
  match o with
  | Ok ((t1, _, _), (t2, _, _), _) => Some (t1, t2)
  | Raise _ => None
  end.

(** A generator whose raw sequence for seed [s] is s, s+1, s+2, ... *)
Definition toy_prng (seed : Z) (k : nat) : nat := Z.to_nat seed + k.

(** The stream that gives the listed raw numbers, then zeros. *)
Definition draws (l : list nat) : RandomState :=
  mkRandom (fun k => nth k l 0) 0.

(** The seed lexicon after [add("42", "NOUN", 0.0)]. *)
Definition lexicon_with_42 : Lexicon fterm :=
  Lexicon_add Lexicon_init "42" "NOUN" (fdec 0 1).

(** The first choice of [generate] on the seed grammar takes the question
    alternative of [S] exactly when the first draw is 1 modulo 3. *)
Definition picks_question (st : RandomState) : Prop :=
  randbelow 3 st = 1.

(** The raw stream 0, 1, 2, ... and its shifts. *)
Definition counting_from (n : nat) : RandomState :=
  mkRandom (fun k => k + n) 0.

Definition counting : RandomState := mkRandom (fun k => k) 0.

(** The seed grammar with the seed lexicon, floats kept as terms. *)
Definition seed_generator : SentenceGenerator fterm :=
  generator_of Grammar_init Lexicon_init.

(* ------------------------------------------------------------------ *)
(** ** Vocabulary of the further properties *)
(* ------------------------------------------------------------------ *)

Definition root_symbol (n : DerivationNode) : string :=
  match n with mkNode symbol _ _ => symbol end.

(** The tokens at the leaves of a tree, left to right; a node is a leaf
    when its token is set. *)
Fixpoint leaf_tokens (n : DerivationNode) : list string :=
  match n with
  | mkNode _ _ (Some t) => [t]
  | mkNode _ children None => flat_map leaf_tokens children
  end.

(** A tree in which a node that carries a token has no children. *)
Fixpoint well_shaped (n : DerivationNode) : bool :=
  match n with
  | mkNode _ [] (Some _) => true
  | mkNode _ (_ :: _) (Some _) => false
  | mkNode _ children None => forallb well_shaped children
  end.

(** The nodes [pretty] prints: a node with a token is printed alone, its
    children are not visited. *)
Fixpoint printed_nodes (n : DerivationNode) : nat :=
  match n with
  | mkNode _ _ (Some _) => 1
  | mkNode _ children None => S (list_sum (map printed_nodes children))
  end.

Fixpoint count_char (c : ascii) (s : string) : nat :=
  match s with
  | EmptyString => 0
  | String a r => (if Ascii.eqb a c then 1 else 0) + count_char c r
  end.

Definition count_lines (s : string) : nat :=
  count_char (ascii_of_nat 10) s.

(** A tree none of whose printed symbols and tokens holds a line break. *)
Fixpoint line_free (n : DerivationNode) : bool :=
  match n with
  | mkNode symbol _ (Some t) =>
      (count_lines symbol =? 0)%nat && (count_lines t =? 0)%nat
  | mkNode symbol children None =>
      (count_lines symbol =? 0)%nat && forallb line_free children
  end.

(** A string of ASCII characters only. *)
Fixpoint ascii_only (s : string) : bool :=
  match s with
  | EmptyString => true
  | String c r => (nat_of_ascii c <? 128)%nat && ascii_only r
  end.

(** A lexicon whose keys are all in lowercase. *)
Definition keys_lower {F : Type} (lexicon : Lexicon F) : bool :=
  forallb (fun k => String.eqb (PyStr.lower k) k) (PyDict.keys lexicon).

(** An expansion that returns between [lo] and [hi] tokens. *)
Definition sized (lo hi : nat)
    (o : outcome (DerivationNode * list string * RandomState)) : Prop :=
  exists node toks st',
    o = Ok (node, toks, st') /\ lo <= length toks <= hi.

(** The seed grammar with a rule for [NP] whose alternatives both start
    with [NP]. *)
Definition grammar_left_recursive : Grammar :=
  add_rule Grammar_init "NP" [nt ["NP"; "PP"]; nt ["NP"; "N"]].

(** The seed lexicon after [add("", "VERB", 0.0)]. *)
Definition lexicon_with_empty_verb : Lexicon fterm :=
  Lexicon_add Lexicon_init EmptyString "VERB" (fdec 0 1).

(** A loop over an alternative that returns, adding between [lo] and [hi]
    tokens to the ones it was given. *)
Definition loop_sized {F : Type} `{FloatOps F}
    (rec : string -> M (DerivationNode * list string))
    (self : SentenceGenerator F) (alt : list Symbol) (lo hi : nat) : Prop :=
  forall children tokens st,
  exists children' tokens' st',
    expand_loop rec self alt children tokens st
    = Ok (children', (tokens ++ tokens')%list, st')
    /\ lo <= length tokens' <= hi.

(* ------------------------------------------------------------------ *)
(** ** Strings: facts about the primitives *)
(* ------------------------------------------------------------------ *)

Lemma length_app (p q : string) :
  String.length (p ++ q) = String.length p + String.length q.
Proof. induction p as [|c p IH]; simpl; [reflexivity | now rewrite IH]. Qed.

Lemma substring_all (q : string) : substring 0 (String.length q) q = q.
Proof. induction q as [|c q IH]; simpl; [reflexivity | now rewrite IH]. Qed.

Lemma substring_app_r (p q : string) :
  substring (String.length p) (String.length q) (p ++ q) = q.
Proof. induction p as [|c p IH]; simpl; [apply substring_all | exact IH]. Qed.

Lemma substring_app_l (p q : string) :
  substring 0 (String.length p) (p ++ q) = p.
Proof.
  induction p as [|c p IH]; simpl.
  - destruct q; reflexivity.
  - now rewrite IH.
Qed.

Lemma get_app_r (p q : string) (i : nat) :
  String.get (String.length p + i) (p ++ q) = String.get i q.
Proof. induction p as [|c p IH]; simpl; [reflexivity | exact IH]. Qed.

Lemma app_empty_r (s : string) : s ++ EmptyString = s.
Proof. induction s as [|c s IH]; simpl; [reflexivity | now rewrite IH]. Qed.

Lemma app_assoc_str (a b c : string) : (a ++ b) ++ c = a ++ (b ++ c).
Proof. induction a as [|x a IH]; simpl; [reflexivity | now rewrite IH]. Qed.

Lemma split_last_some (s p : string) (c : ascii) :
  split_last s = Some (p, c) -> s = p ++ String c EmptyString.
Proof.
  revert p c; induction s as [|a s IH]; simpl; intros p c E; [discriminate|].
  destruct (split_last s) as [[p' l]|] eqn:Es.
  - inversion E; subst. simpl. f_equal. now apply IH.
  - inversion E; subst. destruct s; [reflexivity|].
    simpl in Es. destruct (split_last s) as [[? ?]|]; discriminate.
Qed.

Lemma split_last_none (s : string) : split_last s = None -> s = EmptyString.
Proof.
  destruct s as [|a s]; simpl; [reflexivity|].
  destruct (split_last s) as [[? ?]|]; discriminate.
Qed.

Lemma split_last_snoc (p : string) (c : ascii) :
  split_last (p ++ String c EmptyString) = Some (p, c).
Proof.
  induction p as [|a p IH]; simpl; [reflexivity | now rewrite IH].
Qed.

(** [endswith] on a string given as prefix and rest. *)
Lemma endswith_app (p q suf : string) :
  String.length q = String.length suf ->
  PyStr.endswith (p ++ q) suf = String.eqb q suf.
Proof.
  intros L. unfold PyStr.endswith. rewrite length_app, <- L.
  replace (String.length p + String.length q - String.length q)
    with (String.length p) by lia.
  rewrite substring_app_r.
  replace (String.length q <=? String.length p + String.length q)%nat
    with true by (symmetry; apply Nat.leb_le; lia).
  reflexivity.
Qed.

Lemma endswith_short (s suf : string) :
  String.length s < String.length suf -> PyStr.endswith s suf = false.
Proof.
  intros L. unfold PyStr.endswith.
  replace (String.length suf <=? String.length s)%nat with false
    by (symmetry; apply Nat.leb_gt; lia).
  reflexivity.
Qed.

Lemma endswith_one (p : string) (c d : ascii) :
  PyStr.endswith (p ++ String c EmptyString) (String d EmptyString)
  = Ascii.eqb c d.
Proof.
  rewrite endswith_app by reflexivity. simpl.
  destruct (Ascii.eqb c d); reflexivity.
Qed.

Lemma endswith_single (c d : ascii) :
  PyStr.endswith (String c EmptyString) (String d EmptyString)
  = Ascii.eqb c d.
Proof. exact (endswith_one EmptyString c d). Qed.

Lemma endswith_two (p : string) (b c d e : ascii) :
  PyStr.endswith (p ++ String b (String c EmptyString))
                 (String d (String e EmptyString))
  = Ascii.eqb b d && Ascii.eqb c e.
Proof.
  rewrite endswith_app by reflexivity. simpl.
  destruct (Ascii.eqb b d); [|reflexivity].
  destruct (Ascii.eqb c e); reflexivity.
Qed.

Lemma drop_last_snoc (p : string) (c : ascii) :
  PyStr.drop_last (p ++ String c EmptyString) = p.
Proof.
  unfold PyStr.drop_last. rewrite length_app. simpl.
  replace (String.length p + 1 - 1) with (String.length p) by lia.
  apply substring_app_l.
Qed.

Lemma from_end_two (p : string) (b c : ascii) :
  PyStr.from_end (p ++ String b (String c EmptyString)) 2 = Some b.
Proof.
  unfold PyStr.from_end. rewrite length_app. simpl String.length.
  replace (2 <=? String.length p + 2)%nat with true
    by (symmetry; apply Nat.leb_le; lia).
  simpl andb. cbv iota.
  replace (String.length p + 2 - 2) with (String.length p + 0) by lia.
  rewrite get_app_r. reflexivity.
Qed.

Lemma in_VOWELS_is_vowel (c : ascii) :
  Morphology.in_VOWELS (Some c) = is_vowel c.
Proof.
  unfold Morphology.in_VOWELS, is_vowel; simpl.
  now rewrite orb_false_r, !orb_assoc.
Qed.

Lemma snoc_snoc (q : string) (b c : ascii) :
  (q ++ String b EmptyString) ++ String c EmptyString
  = q ++ String b (String c EmptyString).
Proof. now rewrite app_assoc_str. Qed.

Lemma endswith_two_snoc (q : string) (b c d e : ascii) :
  PyStr.endswith ((q ++ String b EmptyString) ++ String c EmptyString)
                 (String d (String e EmptyString))
  = Ascii.eqb b d && Ascii.eqb c e.
Proof. rewrite snoc_snoc. apply endswith_two. Qed.

Lemma from_end_two_snoc (q : string) (b c : ascii) :
  PyStr.from_end ((q ++ String b EmptyString) ++ String c EmptyString) 2
  = Some b.
Proof. rewrite snoc_snoc. apply from_end_two. Qed.

Lemma length_gt_one_snoc (q : string) (b c : ascii) :
  (1 <? String.length
          ((q ++ String b EmptyString) ++ String c EmptyString))%nat = true.
Proof. apply Nat.ltb_lt. rewrite !length_app. simpl. lia. Qed.

Lemma pluralize_follows_rule (s : string) :
  Morphology.pluralize s = spec_suffix_rule s.
Proof.
  unfold Morphology.pluralize, spec_suffix_rule, ends_y_after_consonant,
    ends_sibilant, PyStr.endswith_any.
  destruct (split_last s) as [[p c]|] eqn:Es.
  2:{ apply split_last_none in Es; subst; reflexivity. }
  apply split_last_some in Es; subst s.
  destruct (split_last p) as [[q b]|] eqn:Ep.
  - apply split_last_some in Ep; subst p.
    simpl existsb.
    rewrite !endswith_one, !endswith_two_snoc, from_end_two_snoc,
      in_VOWELS_is_vowel, length_gt_one_snoc, drop_last_snoc.
    destruct (Ascii.eqb c "y"), (negb (is_vowel b)), (Ascii.eqb c "s"),
      (Ascii.eqb c "x"), (Ascii.eqb c "z"), (Ascii.eqb c "h"),
      (Ascii.eqb b "c"), (Ascii.eqb b "s"); reflexivity.
  - apply split_last_none in Ep; subst p.
    simpl existsb.
    rewrite !endswith_single. simpl.
    rewrite ?andb_false_r, ?orb_false_r.
    destruct (Ascii.eqb c "y"), (Ascii.eqb c "s"),
      (Ascii.eqb c "x"), (Ascii.eqb c "z"), (Ascii.eqb c "h"); reflexivity.
Qed.

(* ------------------------------------------------------------------ *)
(** ** Post-processing *)
(* ------------------------------------------------------------------ *)

Section Postprocess.
Variable tokens : list string.

Let rewritten (j : nat) : string :=
  fix_article tokens j (nth j tokens EmptyString).

Lemma postprocess_loop_spec (n i : nat) (out : list string) :
  i + n = length tokens ->
  postprocess_loop n tokens i out = (out ++ map rewritten (seq i n))%list.
Proof.
  revert i out; induction n as [|n IH]; intros i out L; simpl.
  - now rewrite app_nil_r.
  - replace (i <? length tokens)%nat with true
      by (symmetry; apply Nat.ltb_lt; lia).
    rewrite IH by lia. rewrite <- app_assoc. simpl.
    now rewrite Nat.add_1_r.
Qed.

Lemma postprocess_spec :
  _postprocess tokens = map rewritten (seq 0 (length tokens)).
Proof. unfold _postprocess. now rewrite postprocess_loop_spec. Qed.

Lemma postprocess_length : length (_postprocess tokens) = length tokens.
Proof. now rewrite postprocess_spec, length_map, length_seq. Qed.

Lemma postprocess_nth (i : nat) (tok : string) :
  nth_error tokens i = Some tok ->
  nth_error (_postprocess tokens) i = Some (fix_article tokens i tok).
Proof.
  intros E. rewrite postprocess_spec.
  assert (L : i < length tokens) by (apply nth_error_Some; congruence).
  rewrite (map_nth_error rewritten i (seq 0 (length tokens)) (d := i)).
  - unfold rewritten. now rewrite (nth_error_nth tokens i EmptyString E).
  - rewrite (nth_error_nth' _ 0) by (now rewrite length_seq).
    now rewrite seq_nth.
Qed.

End Postprocess.

Lemma lower_single (c : ascii) :
  PyStr.lower (String c EmptyString) = String (PyStr.lower_char c) EmptyString.
Proof. reflexivity. Qed.

Lemma lower_cons_cons (c d : ascii) (r : string) :
  PyStr.lower (String c (String d r))
  = if Ascii.eqb c "196" && Ascii.eqb d "176"
    then String "i" (String "204" (String "135" (PyStr.lower r)))
    else String (PyStr.lower_char c) (PyStr.lower (String d r)).
Proof. reflexivity. Qed.

Lemma lower_cons (c : ascii) (r : string) :
  Ascii.eqb c "196" = false ->
  PyStr.lower (String c r) = String (PyStr.lower_char c) (PyStr.lower r).
Proof.
  intros N. destruct r as [|d r]; [reflexivity|].
  now rewrite lower_cons_cons, N.
Qed.

Lemma lower_nonempty (c : ascii) (r : string) :
  exists c' r', PyStr.lower (String c r) = String c' r'.
Proof.
  destruct r as [|d r]; [now eexists; eexists|].
  rewrite lower_cons_cons.
  destruct (Ascii.eqb c "196" && Ascii.eqb d "176"); eexists; eexists;
    reflexivity.
Qed.

Lemma lower_is_a (tok : string) :
  String.eqb (PyStr.lower tok) "a" = true <-> is_article_a tok.
Proof.
  unfold is_article_a. destruct tok as [|c [|d r]].
  - simpl. split; [discriminate | intros [E|E]; discriminate].
  - destruct c as [[] [] [] [] [] [] [] []]; vm_compute;
      (split; [intros E; try discriminate E; auto
              | intros [E|E]; try discriminate E; reflexivity]).
  - split.
    + intros E. apply String.eqb_eq in E. rewrite lower_cons_cons in E.
      destruct (Ascii.eqb c "196" && Ascii.eqb d "176"); [discriminate E|].
      destruct (lower_nonempty d r) as (c' & r' & L). rewrite L in E.
      discriminate E.
    + intros [E|E]; discriminate.
Qed.

Lemma contains_aeiou (c : ascii) :
  PyStr.contains "aeiou" (String c EmptyString) = is_vowel c.
Proof.
  unfold is_vowel. simpl.
  destruct (Ascii.eqb c "a"), (Ascii.eqb c "e"), (Ascii.eqb c "i"),
    (Ascii.eqb c "o"), (Ascii.eqb c "u"); reflexivity.
Qed.

Lemma fix_article_other (tokens : list string) (i : nat) (tok : string) :
  ~ is_article_a tok -> fix_article tokens i tok = tok.
Proof.
  intros N. unfold fix_article.
  destruct (String.eqb (PyStr.lower tok) "a") eqn:E; [|reflexivity].
  apply lower_is_a in E. contradiction.
Qed.

Lemma fix_article_last (tokens : list string) (i : nat) (tok : string) :
  nth_error tokens (i + 1) = None -> fix_article tokens i tok = tok.
Proof.
  intros N. unfold fix_article. apply nth_error_None in N.
  replace (i + 1 <? length tokens)%nat with false
    by (symmetry; apply Nat.ltb_ge; lia).
  now rewrite andb_false_r.
Qed.

Lemma fix_article_next (tokens : list string) (i : nat) (tok nxt : string) :
  is_article_a tok -> nth_error tokens (i + 1) = Some nxt ->
  fix_article tokens i tok
  = match PyStr.lower nxt with
    | EmptyString => tok
    | String c _ => if is_vowel c then "an" else tok
    end.
Proof.
  intros A E. unfold fix_article.
  apply lower_is_a in A. rewrite A.
  assert (L : i + 1 < length tokens) by (apply nth_error_Some; congruence).
  replace (i + 1 <? length tokens)%nat with true
    by (symmetry; apply Nat.ltb_lt; lia).
  rewrite (nth_error_nth tokens (i + 1) EmptyString E).
  cbn [andb]. cbv zeta.
  destruct (PyStr.lower nxt) as [|c r]; [reflexivity|].
  now rewrite contains_aeiou.
Qed.

Lemma is_vowel_not_lead (c : ascii) :
  is_vowel (PyStr.lower_char c) = true -> Ascii.eqb c "196" = false.
Proof.
  destruct (Ascii.eqb_spec c "196"%char) as [->|]; [discriminate|reflexivity].
Qed.

Lemma is_alpha_not_lead (c : ascii) :
  PyStr.is_alpha c = true -> Ascii.eqb c "196" = false.
Proof.
  destruct (Ascii.eqb_spec c "196"%char) as [->|]; [discriminate|reflexivity].
Qed.

(** C6. In the post-processing pass, a token "a" (in either case) whose
    successor starts with one of a, e, i, o, u (in either case) comes out
    as "an", and one whose successor starts with a consonant comes out as
    it went in. *)
Theorem postprocess_article_rule
    (tokens : list string) (i : nat) (tok nxt : string) :
  nth_error tokens i = Some tok ->
  nth_error tokens (i + 1) = Some nxt ->
  is_article_a tok ->
  (vowel_initial nxt -> nth_error (_postprocess tokens) i = Some "an")
  /\ (consonant_initial nxt ->
      nth_error (_postprocess tokens) i = Some tok).
Proof.
  intros Et En A.
  rewrite (postprocess_nth tokens i tok Et).
  rewrite (fix_article_next tokens i tok nxt A En).
  split.
  - intros (c & r & -> & V).
    rewrite (lower_cons c r (is_vowel_not_lead c V)). now rewrite V.
  - intros (c & r & -> & Al & V).
    rewrite (lower_cons c r (is_alpha_not_lead c Al)). now rewrite V.
Qed.

Lemma postprocess_article_rule_witness :
  nth_error (_postprocess ["see"; "A"; "Apple"; "a"; "dog"]) 1 = Some "an"
  /\ nth_error (_postprocess ["see"; "A"; "Apple"; "a"; "dog"]) 3 = Some "a".
Proof.
  split.
  - apply (postprocess_article_rule
             ["see"; "A"; "Apple"; "a"; "dog"] 1 "A" "Apple");
      [reflexivity | reflexivity | right; reflexivity |].
    exists "A"%char, "pple". split; reflexivity.
  - apply (postprocess_article_rule
             ["see"; "A"; "Apple"; "a"; "dog"] 3 "a" "dog");
      [reflexivity | reflexivity | left; reflexivity |].
    exists "d"%char, "og". repeat split; reflexivity.
Defined.

Lemma startswith_nil (s : string) :
  PyStr.startswith s EmptyString = true.
Proof. destruct s; reflexivity. Qed.

(** The tokens that pass the test are those that start with one of a, e,
    i, o, u in either case and those that start with U+0130. *)
Lemma vowel_initial_ci_iff (tok : string) :
  vowel_initial_ci tok
  <-> vowel_initial tok \/ PyStr.startswith tok "İ" = true.
Proof.
  unfold vowel_initial_ci, vowel_initial.
  destruct tok as [|c r].
  - split; [intros (c & r & E & _); discriminate E|].
    intros [(c & r & E & _)|E]; discriminate E.
  - destruct (Ascii.eqb c "196") eqn:Lead.
    + apply Ascii.eqb_eq in Lead. subst c. destruct r as [|d r].
      * split; [intros (c & r & E & V); inversion E; subst; discriminate V|].
        intros [(c & r & E & V)|E]; [inversion E; subst|]; discriminate.
      * rewrite lower_cons_cons. cbn [PyStr.startswith].
        destruct (Ascii.eqb_spec d "176"%char) as [->|Nd].
        -- split; [intros _; right; now rewrite startswith_nil|]. intros _.
           eexists; eexists; split; reflexivity.
        -- assert (D1 : Ascii.eqb d "176" = false)
             by (apply Ascii.eqb_neq; exact Nd).
           assert (D2 : Ascii.eqb "176" d = false)
             by (apply Ascii.eqb_neq; congruence).
           rewrite ?D1, ?D2, ?andb_false_r. cbn [andb]. split.
           ++ intros (c & r' & E & V). inversion E; subst. discriminate V.
           ++ intros [(c & r' & E & V)|E]; [inversion E; subst|];
                discriminate.
    + rewrite (lower_cons c r Lead). split.
      * intros (c' & r' & E & V). inversion E; subst. left. now exists c, r.
      * intros [(c' & r' & E & V)|E].
        -- inversion E; subst. now eexists; eexists.
        -- cbn [PyStr.startswith] in E. rewrite Ascii.eqb_sym, Lead in E.
           discriminate E.
Qed.

(** C10, as the code has it. Post-processing keeps the length of the token
    sequence; a position comes out unchanged unless it holds an "a" (in
    either case) immediately followed by a token that starts with one of
    a, e, i, o, u in either case or with U+0130, the dotted capital I whose
    lowercase form is an "i" followed by U+0307; the final position comes
    out unchanged. *)
Theorem postprocess_frame (tokens : list string) :
  length (_postprocess tokens) = length tokens
  /\ (forall i tok,
        nth_error tokens i = Some tok ->
        ~ (is_article_a tok
           /\ exists nxt, nth_error tokens (i + 1) = Some nxt
                          /\ (vowel_initial nxt
                              \/ PyStr.startswith nxt "İ" = true)) ->
        nth_error (_postprocess tokens) i = Some tok)
  /\ (forall tok,
        nth_error tokens (length tokens - 1) = Some tok ->
        nth_error (_postprocess tokens) (length tokens - 1) = Some tok).
Proof.
  split; [apply postprocess_length|]. split.
  - intros i tok Et N. rewrite (postprocess_nth tokens i tok Et). f_equal.
    destruct (String.eqb (PyStr.lower tok) "a") eqn:A.
    + apply lower_is_a in A.
      destruct (nth_error tokens (i + 1)) as [nxt|] eqn:En.
      * rewrite (fix_article_next tokens i tok nxt A En).
        destruct (PyStr.lower nxt) as [|c r] eqn:Ln; [reflexivity|].
        destruct (is_vowel c) eqn:V; [|reflexivity].
        exfalso. apply N. split; [exact A|].
        exists nxt. split; [reflexivity|].
        apply vowel_initial_ci_iff. now exists c, r.
      * now apply fix_article_last.
    + apply fix_article_other. intros A'. apply lower_is_a in A'. congruence.
  - intros tok Et. rewrite (postprocess_nth tokens _ tok Et). f_equal.
    apply fix_article_last. apply nth_error_None.
    assert (length tokens - 1 < length tokens)
      by (apply nth_error_Some; congruence).
    lia.
Qed.

Lemma postprocess_frame_witness :
  length (_postprocess ["a"; "İstanbul"; "a"; "École"; "a"]) = 5
  /\ nth_error (_postprocess ["a"; "İstanbul"; "a"; "École"; "a"]) 2
     = Some "a"
  /\ nth_error (_postprocess ["a"; "İstanbul"; "a"; "École"; "a"]) 4
     = Some "a".
Proof.
  destruct (postprocess_frame ["a"; "İstanbul"; "a"; "École"; "a"])
    as (L & Fr & La).
  split; [exact L|]. split.
  - apply (Fr 2 "a"); [reflexivity|].
    intros [_ (nxt & E & [(c & r & Eq & V)|S])];
      assert (Nx : nxt = "École") by (cbn in E; congruence); subst nxt.
    + assert (Ec : c = "195"%char) by congruence. subst c. discriminate V.
    + discriminate S.
  - apply (La "a"). reflexivity.
Defined.

(** C10 as stated fails: "İstanbul" starts with none of a, e, i, o, u in
    either case, and the "a" before it is rewritten all the same, because
    the first character of its lowercase form is an "i". *)
Lemma article_before_dotted_capital :
  nth_error ["a"; "İstanbul"] 0 = Some "a"
  /\ ~ vowel_initial "İstanbul"
  /\ _postprocess ["a"; "İstanbul"] = ["an"; "İstanbul"].
Proof.
  split; [reflexivity|]. split; [|reflexivity].
  intros (c & r & Eq & V).
  assert (Ec : c = "196"%char) by congruence. subst c. discriminate V.
Qed.

Example postprocess_dotted_capital :
  _postprocess ["a"; "İstanbul"; "a"; "École"; "a"]
  = ["an"; "İstanbul"; "a"; "École"; "a"].
Proof. reflexivity. Qed.

(* ------------------------------------------------------------------ *)
(** ** Morphology *)
(* ------------------------------------------------------------------ *)

Example pluralize_cat : Morphology.pluralize "cat" = "cats".
Proof. reflexivity. Qed.

Example pluralize_box : Morphology.pluralize "box" = "boxes".
Proof. reflexivity. Qed.

Example pluralize_city : Morphology.pluralize "city" = "cities".
Proof. reflexivity. Qed.

Example third_person_chase :
  Morphology.third_person_singular "chase" = "chases".
Proof. reflexivity. Qed.

Example past_tense_like : Morphology.past_tense "like" = "liked".
Proof. reflexivity. Qed.

Example grammar_core_rules_exist :
  forallb (has Grammar_init) ["S"; "CLAUSE"; "NP"; "VP"; "Q"; "IMP"] = true.
Proof. reflexivity. Qed.

(** C8. On every string [third_person_singular] and [pluralize] agree, and
    both follow the one suffix rule: y after a non-vowel gives ies, a final
    s, x, z, ch or sh gives es, anything else gives s. *)
Theorem third_person_singular_is_pluralize (s : string) :
  Morphology.third_person_singular s = Morphology.pluralize s
  /\ Morphology.pluralize s = spec_suffix_rule s.
Proof.
  split; [reflexivity | apply pluralize_follows_rule].
Qed.

(* ------------------------------------------------------------------ *)
(** ** Dictionaries and the lexicon *)
(* ------------------------------------------------------------------ *)

Section DictFacts.
Context {V : Type}.
Implicit Types (d : PyDict.dict V) (k : string) (v : V).

Lemma get_set_same d k v : PyDict.get (PyDict.set d k v) k = Some v.
Proof.
  induction d as [|[k' v'] d IH]; simpl.
  - now rewrite String.eqb_refl.
  - destruct (String.eqb k' k) eqn:E; simpl; rewrite E; [reflexivity|exact IH].
Qed.

Lemma get_set_other d k k' v :
  k' <> k -> PyDict.get (PyDict.set d k v) k' = PyDict.get d k'.
Proof.
  intros N. induction d as [|[k0 v0] d IH]; simpl.
  - destruct (String.eqb_spec k k'); [congruence | reflexivity].
  - destruct (String.eqb_spec k0 k); simpl.
    + subst k0. destruct (String.eqb_spec k k'); [congruence | reflexivity].
    + destruct (String.eqb_spec k0 k'); [reflexivity | exact IH].
Qed.

Lemma keys_set d k v :
  PyDict.keys (PyDict.set d k v)
  = if PyDict.mem d k then PyDict.keys d else (PyDict.keys d ++ [k])%list.
Proof.
  unfold PyDict.mem, PyDict.keys.
  induction d as [|[k0 v0] d IH]; simpl; [reflexivity|].
  destruct (String.eqb k0 k); simpl; [reflexivity|].
  rewrite IH. destruct (PyDict.get d k); reflexivity.
Qed.

End DictFacts.

(** C9. [add] stores the entry under the lowercase word with the uppercase
    tag, replacing the entry of that key if there is one and leaving every
    other key alone; on a fresh lexicon "scientist" is not among the NOUN
    words, and after [add("scientist", "NOUN", p)] it is there once. *)
Theorem lexicon_add_stores {F : Type} `{FloatOps F}
    (lexicon : Lexicon F) (word tag : string) (p : F) :
  let added := Lexicon_add lexicon word tag p in
  PyDict.get added (PyStr.lower word) = Some (mkLexEntry (PyStr.upper tag) p)
  /\ Lexicon_get added word = Some (mkLexEntry (PyStr.upper tag) p)
  /\ (forall k, k <> PyStr.lower word ->
                PyDict.get added k = PyDict.get lexicon k)
  /\ PyDict.keys added
     = (if PyDict.mem lexicon (PyStr.lower word)
        then PyDict.keys lexicon
        else PyDict.keys lexicon ++ [PyStr.lower word])%list
  /\ ~ In "scientist" (words_for_pos (@Lexicon_init F _) "NOUN")
  /\ count_occ string_dec
       (words_for_pos (Lexicon_add Lexicon_init "scientist" "NOUN" p) "NOUN")
       "scientist" = 1.
Proof.
  cbv zeta. unfold Lexicon_get, Lexicon_add.
  split; [|split; [|split; [|split; [|split]]]].
  - apply get_set_same.
  - apply get_set_same.
  - intros k N. now apply get_set_other.
  - apply keys_set.
  - simpl. intros D.
    repeat (destruct D as [D|D]; [discriminate D|]). exact D.
  - reflexivity.
Qed.

Lemma lexicon_add_stores_witness :
  PyDict.get (Lexicon_add (@Lexicon_init fterm _) "Scientist" "noun"
                (FLit 3 1)) "scientist"
  = Some (mkLexEntry "NOUN" (FLit 3 1))
  /\ PyDict.get (Lexicon_add (@Lexicon_init fterm _) "Scientist" "noun"
                   (FLit 3 1)) "cat"
     = PyDict.get (@Lexicon_init fterm _) "cat".
Proof.
  destruct (lexicon_add_stores (@Lexicon_init fterm _) "Scientist" "noun"
              (FLit 3 1)) as (Stored & _ & Others & _).
  split; [exact Stored|].
  apply Others. discriminate.
Defined.

(* ------------------------------------------------------------------ *)
(** ** Slot resolution *)
(* ------------------------------------------------------------------ *)

Lemma randbelow_lt (n : nat) (st : RandomState) :
  0 < n -> randbelow n st < n.
Proof. intros P. unfold randbelow. apply Nat.mod_upper_bound. lia. Qed.

Lemma random_choice_nth (ws : list string) (st : RandomState) :
  ws <> [] ->
  random_choice ws st
  = Ok (nth (randbelow (length ws) st) ws EmptyString, advance st).
Proof.
  intros N. unfold random_choice. destruct ws as [|w ws]; [congruence|].
  do 2 f_equal. apply nth_indep. apply randbelow_lt. simpl. lia.
Qed.

Lemma init_builds {F : Type} `{FloatOps F} (prng : Z -> nat -> nat)
    (grammar : Grammar) (lexicon : Lexicon F) (seed : option Z)
    (st : RandomState) :
  SentenceGenerator_init prng grammar lexicon seed st
  = Ok (generator_of grammar lexicon,
        match seed with
        | Some s => mkRandom (prng s) 0
        | None => st
        end).
Proof. destruct seed; reflexivity. Qed.

Lemma choose_unknown {F : Type} `{FloatOps F}
    (grammar : Grammar) (lexicon : Lexicon F) (slot_ : string)
    (st : RandomState) :
  ~ In slot_ ["<P>"; "<AUX>"; "<WH>"; "<DET>"; "<NOUN>"; "<VERB>"; "<ADJ>"] ->
  _choose_for_pos (generator_of grammar lexicon) slot_ st
  = Ok (EmptyString, st).
Proof.
  intros N. unfold _choose_for_pos, generator_of.
  cbn [functional_words PyDict.get].
  repeat match goal with
  | |- context [String.eqb ?a slot_] =>
      destruct (String.eqb_spec a slot_);
      [exfalso; apply N; subst slot_; simpl; tauto|]
  | |- context [String.eqb slot_ ?a] =>
      destruct (String.eqb_spec slot_ a);
      [exfalso; apply N; subst slot_; simpl; tauto|]
  end.
  reflexivity.
Qed.

Lemma choose_lexical {F : Type} `{FloatOps F}
    (grammar : Grammar) (lexicon : Lexicon F) (slot_ tag default : string)
    (st : RandomState) :
  In (slot_, tag, default)
     [("<NOUN>", "NOUN", "cat"); ("<VERB>", "VERB", "see");
      ("<ADJ>", "ADJ", "happy")] ->
  _choose_for_pos (generator_of grammar lexicon) slot_ st
  = random_choice (or_default (words_for_pos lexicon tag) default) st.
Proof.
  intros [E|[E|[E|[]]]]; inversion E; subst; reflexivity.
Qed.

(** C5, as the code has it. [<P>], [<AUX>], [<WH>] and [<DET>] take the
    word that [randbelow] indexes in their fixed lists; [<NOUN>], [<VERB>]
    and [<ADJ>] take the word it indexes among the lexicon's words of the
    tag, or the default "cat", "see", "happy" when there is none; every
    slot other than these seven gives the empty string and draws nothing. *)
Theorem choose_for_pos_by_slot {F : Type} `{FloatOps F}
    (grammar : Grammar) (lexicon : Lexicon F) (st : RandomState) :
  let self := generator_of grammar lexicon in
  _choose_for_pos self "<P>" st
  = Ok (nth (randbelow 4 st) ["with"; "without"; "near"; "against"]
            EmptyString, advance st)
  /\ _choose_for_pos self "<AUX>" st
     = Ok (nth (randbelow 3 st) ["does"; "did"; "will"] EmptyString,
           advance st)
  /\ _choose_for_pos self "<WH>" st
     = Ok (nth (randbelow 4 st) ["why"; "how"; "what"; "who"] EmptyString,
           advance st)
  /\ _choose_for_pos self "<DET>" st
     = Ok (nth (randbelow 3 st) ["the"; "a"; "an"] EmptyString, advance st)
  /\ (forall slot_ tag default,
        In (slot_, tag, default)
           [("<NOUN>", "NOUN", "cat"); ("<VERB>", "VERB", "see");
            ("<ADJ>", "ADJ", "happy")] ->
        let ws := words_for_pos lexicon tag in
        (ws <> [] ->
         randbelow (length ws) st < length ws
         /\ _choose_for_pos self slot_ st
            = Ok (nth (randbelow (length ws) st) ws EmptyString, advance st))
        /\ (ws = [] ->
            _choose_for_pos self slot_ st = Ok (default, advance st)))
  /\ (forall slot_,
        ~ In slot_ ["<P>"; "<AUX>"; "<WH>"; "<DET>";
                    "<NOUN>"; "<VERB>"; "<ADJ>"] ->
        _choose_for_pos self slot_ st = Ok (EmptyString, st)).
Proof.
  cbv zeta.
  split; [apply (random_choice_nth ["with"; "without"; "near"; "against"]);
          discriminate|].
  split; [apply (random_choice_nth ["does"; "did"; "will"]); discriminate|].
  split; [apply (random_choice_nth ["why"; "how"; "what"; "who"]);
          discriminate|].
  split; [apply (random_choice_nth ["the"; "a"; "an"]); discriminate|].
  split.
  - intros slot_ tag default I.
    rewrite (choose_lexical grammar lexicon slot_ tag default st I).
    split.
    + intros N. split.
      * apply randbelow_lt. destruct (words_for_pos lexicon tag);
          [congruence | simpl; lia].
      * destruct (words_for_pos lexicon tag) as [|w ws] eqn:E;
          [congruence|].
        apply random_choice_nth. discriminate.
    + intros ->. reflexivity.
  - intros slot_ N. now apply choose_unknown.
Qed.

Lemma choose_for_pos_by_slot_witness :
  _choose_for_pos (generator_of Grammar_init (@Lexicon_init fterm _))
                  "<VERB>" counting
  = Ok ("see", advance counting)
  /\ _choose_for_pos (generator_of Grammar_init ([] : Lexicon fterm))
                     "<VERB>" counting
     = Ok ("see", advance counting)
  /\ _choose_for_pos (generator_of Grammar_init (@Lexicon_init fterm _))
                     "<PUNCT>" counting
     = Ok (EmptyString, counting).
Proof.
  destruct (choose_for_pos_by_slot Grammar_init (@Lexicon_init fterm _)
              counting) as (_ & _ & _ & _ & L & U).
  destruct (choose_for_pos_by_slot Grammar_init ([] : Lexicon fterm)
              counting) as (_ & _ & _ & _ & L0 & _).
  assert (I : In ("<VERB>", "VERB", "see")
                [("<NOUN>", "NOUN", "cat"); ("<VERB>", "VERB", "see");
                 ("<ADJ>", "ADJ", "happy")]) by (right; left; reflexivity).
  split; [|split].
  - destruct (L "<VERB>" "VERB" "see" I) as [Lne _].
    destruct Lne as [_ E]; [discriminate | exact E].
  - destruct (L0 "<VERB>" "VERB" "see" I) as [_ Le].
    apply Le. reflexivity.
  - apply U. simpl. intros D.
    repeat (destruct D as [D|D]; [discriminate D|]). exact D.
Defined.

(** C5 as stated fails: [<DET>] is none of [<P>], [<AUX>], [<WH>],
    [<NOUN>], [<VERB>], [<ADJ>], and it does not give the empty string. *)
Lemma choose_for_pos_det_not_empty :
  ~ (forall slot_,
       ~ In slot_ ["<P>"; "<AUX>"; "<WH>"; "<NOUN>"; "<VERB>"; "<ADJ>"] ->
       exists st',
         _choose_for_pos (generator_of Grammar_init (@Lexicon_init fterm _))
                         slot_ counting
         = Ok (EmptyString, st')).
Proof.
  intros A. destruct (A "<DET>") as [st' E].
  - simpl. intros D.
    repeat (destruct D as [D|D]; [discriminate D|]). exact D.
  - vm_compute in E. discriminate E.
Qed.

(* ------------------------------------------------------------------ *)
(** ** Valence *)
(* ------------------------------------------------------------------ *)

Lemma lower_char_idem (c : ascii) :
  PyStr.lower_char (PyStr.lower_char c) = PyStr.lower_char c.
Proof. destruct c as [[] [] [] [] [] [] [] []]; reflexivity. Qed.

Lemma lower_char_keeps_lead (c : ascii) :
  Ascii.eqb (PyStr.lower_char c) "196" = Ascii.eqb c "196"
  /\ Ascii.eqb (PyStr.lower_char c) "176" = Ascii.eqb c "176".
Proof. destruct c as [[] [] [] [] [] [] [] []]; split; reflexivity. Qed.

Lemma lower_head (d : ascii) (r : string) :
  exists x r',
    PyStr.lower (String d r) = String x r'
    /\ (Ascii.eqb x "176" = true -> Ascii.eqb d "176" = true).
Proof.
  destruct r as [|e r].
  - exists (PyStr.lower_char d), EmptyString. split; [reflexivity|].
    now rewrite (proj2 (lower_char_keeps_lead d)).
  - rewrite lower_cons_cons.
    destruct (Ascii.eqb d "196" && Ascii.eqb e "176").
    + eexists; eexists. split; [reflexivity | discriminate].
    + eexists; eexists. split; [reflexivity|].
      now rewrite (proj2 (lower_char_keeps_lead d)).
Qed.

Lemma lower_idem_both (s : string) :
  PyStr.lower (PyStr.lower s) = PyStr.lower s
  /\ forall c, PyStr.lower (PyStr.lower (String c s))
               = PyStr.lower (String c s).
Proof.
  induction s as [|d r [IH1 IH2]].
  - split; [reflexivity|]. intros c.
    now rewrite !lower_single, lower_char_idem.
  - split; [apply IH2|]. intros c. rewrite lower_cons_cons.
    destruct (Ascii.eqb c "196" && Ascii.eqb d "176") eqn:Sp.
    + rewrite !lower_cons by reflexivity. now rewrite IH1.
    + destruct (lower_head d r) as (x & r' & E & Hx).
      rewrite E, lower_cons_cons, (proj1 (lower_char_keeps_lead c)).
      replace (Ascii.eqb c "196" && Ascii.eqb x "176") with false.
      * rewrite lower_char_idem, <- E. now rewrite IH2.
      * destruct (Ascii.eqb c "196"); [|reflexivity].
        destruct (Ascii.eqb x "176"); [|reflexivity].
        cbn [andb] in Sp. now rewrite Hx in Sp.
Qed.

Lemma lower_idem (s : string) : PyStr.lower (PyStr.lower s) = PyStr.lower s.
Proof. apply lower_idem_both. Qed.

Section ValenceFacts.
Context {F : Type} `{FloatOps F}.

Lemma from_word_polarity (lexicon : Lexicon F) (tok : string) :
  valence (from_word (PyStr.lower tok) lexicon) = polarity_of lexicon tok.
Proof.
  unfold from_word, polarity_of, Lexicon_get. rewrite lower_idem.
  destruct (PyDict.get lexicon (PyStr.lower tok)); reflexivity.
Qed.

Lemma fold_valence_spec (lexicon : Lexicon F) (tokens : list string)
    (field : EmotionField F) :
  valence (fold_valence lexicon tokens field)
  = fold_left (fun v p => ftanh (fadd v p))
              (map (polarity_of lexicon) tokens) (valence field).
Proof.
  unfold fold_valence.
  revert field; induction tokens as [|t tokens IH]; intros field;
    cbn [fold_left map].
  - reflexivity.
  - rewrite IH. unfold combine at 1. cbn [valence].
    now rewrite from_word_polarity.
Qed.

Lemma generate_inv (depth : nat) (self : SentenceGenerator F)
    (st st' : RandomState) (sent : string) (tree : DerivationNode)
    (field : EmotionField F) :
  generate depth self st = Ok (sent, tree, field, st') ->
  exists toks,
    _expand depth self (start (g self)) st = Ok (tree, toks, st')
    /\ _linearize (_postprocess toks) = Ok sent
    /\ field = fold_valence (lex self) (_postprocess toks)
                 (mkEmotion (fdec 0 1)).
Proof.
  unfold generate, bind, lift, ret. intros E.
  destruct (_expand depth self (start (g self)) st)
    as [[[tree0 toks] st1]|e]; [|discriminate].
  destruct (_linearize (_postprocess toks)) as [s|e] eqn:L; [|discriminate].
  inversion E; subst. exists toks.
  split; [reflexivity | split; [exact L | reflexivity]].
Qed.

Lemma generate_intro (depth : nat) (self : SentenceGenerator F)
    (st st' : RandomState) (sent : string) (tree : DerivationNode)
    (toks : list string) :
  _expand depth self (start (g self)) st = Ok (tree, toks, st') ->
  _linearize (_postprocess toks) = Ok sent ->
  generate depth self st
  = Ok (sent, tree,
        fold_valence (lex self) (_postprocess toks) (mkEmotion (fdec 0 1)),
        st').
Proof.
  intros E L. unfold generate, bind, lift, ret. now rewrite E, L.
Qed.

End ValenceFacts.

(** C4. The valence [generate] returns is the left fold of [combine] over
    the post-processed tokens in order, from the neutral field: for three
    tokens it is tanh(tanh(tanh(0 + p1) + p2) + p3), and a token the lexicon
    does not hold counts as 0.0. *)
Theorem valence_is_left_fold {F : Type} `{FloatOps F}
    (depth : nat) (self : SentenceGenerator F) (st st' : RandomState)
    (sent : string) (tree : DerivationNode) (field : EmotionField F) :
  generate depth self st = Ok (sent, tree, field, st') ->
  exists toks,
    _expand depth self (start (g self)) st = Ok (tree, toks, st')
    /\ valence field
       = left_fold (map (polarity_of (lex self)) (_postprocess toks))
    /\ (forall w1 w2 w3,
          _postprocess toks = [w1; w2; w3] ->
          valence field
          = ftanh (fadd
              (ftanh (fadd
                 (ftanh (fadd (fdec 0 1)
                    (valence (from_word (PyStr.lower w1) (lex self)))))
                 (valence (from_word (PyStr.lower w2) (lex self)))))
              (valence (from_word (PyStr.lower w3) (lex self)))))
    /\ (forall tok,
          Lexicon_get (lex self) tok = None ->
          valence (from_word (PyStr.lower tok) (lex self)) = fdec 0 1).
Proof.
  intros E. apply generate_inv in E. destruct E as (toks & E & _ & ->).
  exists toks. split; [exact E|]. split; [|split].
  - apply fold_valence_spec.
  - intros w1 w2 w3 ->. reflexivity.
  - intros tok N. rewrite from_word_polarity. unfold polarity_of.
    unfold Lexicon_get in N. now rewrite N.
Qed.

Lemma valence_is_left_fold_witness :
  exists toks,
    _postprocess toks = ["child"; "see"; "happy"]
    /\ FTanh (FAdd (FTanh (FAdd (FTanh (FAdd (FLit 0 1) (FLit 4 1)))
                                (FLit 0 1)))
                   (FLit 8 1))
       = left_fold (map (polarity_of (lex seed_generator))
                        (_postprocess toks)).
Proof.
  destruct (valence_is_left_fold 10 seed_generator (counting_from 3)
              (mkRandom (fun k => k + 3) 10) "Child see happy."
              (mkNode "S"
                 [mkNode "CLAUSE"
                    [mkNode "NP"
                       [mkNode "N" [mkNode "<NOUN>" [] (Some "child")] None]
                       None;
                     mkNode "VP"
                       [mkNode "V" [mkNode "<VERB>" [] (Some "see")] None;
                        mkNode "ADJ" [mkNode "<ADJ>" [] (Some "happy")] None]
                       None]
                    None]
                 None)
              (mkEmotion
                 (FTanh (FAdd (FTanh (FAdd (FTanh (FAdd (FLit 0 1) (FLit 4 1)))
                                           (FLit 0 1)))
                              (FLit 8 1)))))
    as (toks & E & V & _).
  - reflexivity.
  - exists toks. split; [|exact V].
    vm_compute in E. inversion E. reflexivity.
Defined.

(* ------------------------------------------------------------------ *)
(** ** Expansion: which exceptions can come out *)
(* ------------------------------------------------------------------ *)

Lemma get_In {V : Type} (d : PyDict.dict V) (k : string) (v : V) :
  PyDict.get d k = Some v -> In (k, v) d.
Proof.
  induction d as [|[k' v'] d IH]; simpl; [discriminate|].
  destruct (String.eqb_spec k' k).
  - intros E. inversion E; subst. now left.
  - intros E. right. now apply IH.
Qed.

Lemma random_choice_In {A : Type} (seq : list A) (st st' : RandomState)
    (x : A) :
  random_choice seq st = Ok (x, st') -> In x seq /\ st' = advance st.
Proof.
  unfold random_choice. destruct seq as [|d seq]; [discriminate|].
  intros E.
  assert (Ex : nth (randbelow (length (d :: seq)) st) (d :: seq) d = x)
    by congruence.
  assert (Es : advance st = st') by congruence.
  subst x st'. split; [|reflexivity].
  apply nth_In. apply randbelow_lt. simpl. lia.
Qed.

Lemma random_choice_raises {A : Type} (seq : list A) (st : RandomState)
    (e : exn) :
  random_choice seq st = Raise e ->
  seq = [] /\ e = IndexError "Cannot choose from an empty sequence".
Proof.
  unfold random_choice. destruct seq; [|discriminate].
  intros E. inversion E. now split.
Qed.

Lemma random_choice_one {A : Type} (x : A) (st : RandomState) :
  random_choice [x] st = Ok (x, advance st).
Proof.
  unfold random_choice, randbelow. simpl length.
  now rewrite Nat.mod_1_r.
Qed.

Section ExpandFacts.
Context {F : Type} `{FloatOps F}.
Variable grammar : Grammar.
Variable lexicon : Lexicon F.

Let self : SentenceGenerator F := generator_of grammar lexicon.

Lemma or_default_nonempty (ws : list string) (d : string) :
  or_default ws d <> [].
Proof. destruct ws; discriminate. Qed.

(** Slot resolution always gives a word. *)
Lemma choose_returns (slot_ : string) (st : RandomState) :
  exists w st', _choose_for_pos self slot_ st = Ok (w, st').
Proof.
  unfold _choose_for_pos, self, generator_of.
  cbn [functional_words lex PyDict.get].
  repeat match goal with
  | |- context [if ?b then _ else _] => destruct b
  end;
  try (rewrite random_choice_nth by
         (first [apply or_default_nonempty | discriminate]));
  eexists; eexists; reflexivity.
Qed.

Lemma expand_loop_app (rec : string -> M (DerivationNode * list string))
    (pre rest : list Symbol) (children : list DerivationNode)
    (tokens : list string) (st : RandomState) :
  expand_loop rec self (pre ++ rest) children tokens st
  = match expand_loop rec self pre children tokens st with
    | Ok (children', tokens', st') =>
        expand_loop rec self rest children' tokens' st'
    | Raise e => Raise e
    end.
Proof.
  revert children tokens st.
  induction pre as [|sym pre IH]; intros children tokens st.
  - reflexivity.
  - cbn [app expand_loop]. destruct sym as [s|name attrs|obj|items].
    + unfold bind. destruct (rec s st) as [[[node toks] st1]|e];
        [apply IH | reflexivity].
    + unfold bind.
      destruct (_choose_for_pos self name st) as [[w st1]|e];
        [apply IH | reflexivity].
    + reflexivity.
    + destruct items as [|first items]; [reflexivity|]. unfold bind.
      destruct (choose_for_first self first st) as [[w st1]|e];
        [apply IH | reflexivity].
Qed.

(** A loop that comes to an object of another type raises. *)
Lemma expand_loop_other (rec : string -> M (DerivationNode * list string))
    (pre post : list Symbol) (obj : Z) (st : RandomState)
    (r : list DerivationNode * list string * RandomState) :
  expand_loop rec self pre [] [] st = Ok r ->
  expand_loop rec self (pre ++ SymOther obj :: post) [] [] st
  = Raise (ValueError "Unknown symbol type").
Proof.
  intros E. rewrite expand_loop_app, E. destruct r as [[ch tk] st'].
  reflexivity.
Qed.

(** A loop that completes went over strings and tuples only. *)
Lemma expand_loop_ok (rec : string -> M (DerivationNode * list string))
    (alt : list Symbol) (children : list DerivationNode)
    (tokens : list string) (st : RandomState)
    (r : list DerivationNode * list string * RandomState) :
  expand_loop rec self alt children tokens st = Ok r ->
  forallb accepted_symbol alt = true.
Proof.
  revert children tokens st.
  induction alt as [|sym alt IH]; intros children tokens st E;
    [reflexivity|].
  cbn [expand_loop] in E. destruct sym as [s|name attrs|obj|items];
    cbn [forallb accepted_symbol andb].
  - unfold bind in E. destruct (rec s st) as [[[node toks] st1]|e];
      [eapply IH; exact E | discriminate].
  - unfold bind in E.
    destruct (_choose_for_pos self name st) as [[w st1]|e];
      [eapply IH; exact E | discriminate].
  - discriminate.
  - destruct items as [|first items]; [discriminate|]. unfold bind in E.
    destruct (choose_for_first self first st) as [[w st1]|e];
      [eapply IH; exact E | discriminate].
Qed.

Section Allowed.
(** [allowed]: a set of exceptions that holds [RecursionError] and whatever
    choosing among the alternatives of a rule may raise. *)
Variable allowed : exn -> Prop.
Hypothesis allowed_recursion : allowed RecursionError.
Hypothesis allowed_choice :
  forall l r e st, In (l, r) (rules grammar) ->
                   random_choice (rhs r) st = Raise e -> allowed e.
Hypothesis typed : well_formed grammar = true.

Lemma expand_loop_raises (rec : string -> M (DerivationNode * list string))
    (alt : list Symbol) :
  (forall s st e, rec s st = Raise e -> allowed e) ->
  forallb well_typed_symbol alt = true ->
  forall children tokens st e,
    expand_loop rec self alt children tokens st = Raise e -> allowed e.
Proof.
  intros Hrec. induction alt as [|sym alt IH]; intros T children tokens st e E.
  - discriminate.
  - cbn [forallb] in T. apply andb_prop in T. destruct T as [Ts Ta].
    cbn [expand_loop] in E. destruct sym as [s|name attrs|obj|items];
      [| | discriminate Ts | discriminate Ts].
    + unfold bind in E. destruct (rec s st) as [[[node toks] st1]|e'] eqn:R.
      * eapply IH; eauto.
      * inversion E; subst. eapply Hrec; eauto.
    + unfold bind in E.
      destruct (choose_returns name st) as (w & st1 & C). rewrite C in E.
      eapply IH; eauto.
Qed.

Lemma expand_raises (depth : nat) :
  forall symbol st e, _expand depth self symbol st = Raise e -> allowed e.
Proof.
  induction depth as [|d IH]; intros symbol st e E.
  - inversion E. exact allowed_recursion.
  - cbn [_expand] in E. unfold expand_body in E.
    destruct (has (g self) symbol) eqn:Hh; cbn [negb] in E; [|discriminate].
    destruct (PyDict.get (rules (g self)) symbol) as [rule|] eqn:G.
    2:{ unfold has, PyDict.mem in Hh. rewrite G in Hh. discriminate. }
    apply get_In in G. unfold bind in E.
    destruct (random_choice (rhs rule) st) as [[alt st1]|e'] eqn:C.
    + apply random_choice_In in C. destruct C as [I _].
      assert (T : forallb well_typed_symbol alt = true).
      { unfold well_formed in typed.
        rewrite forallb_forall in typed. specialize (typed _ G).
        cbn [snd] in typed. rewrite forallb_forall in typed.
        now apply typed. }
      destruct (expand_loop (_expand d self) self alt [] [] st1)
        as [[[ch tk] st2]|e''] eqn:L; [discriminate|].
      inversion E; subst.
      eapply (expand_loop_raises (_expand d self) alt IH T); eauto.
    + inversion E; subst. eapply allowed_choice; eauto.
Qed.

End Allowed.

End ExpandFacts.

Lemma get_has (gr : Grammar) (symbol : string) (rule : Rule) :
  PyDict.get (rules gr) symbol = Some rule -> has gr symbol = true.
Proof. intros E. unfold has, PyDict.mem. now rewrite E. Qed.

Lemma expand_step {F : Type} `{FloatOps F} (depth : nat)
    (self : SentenceGenerator F) (symbol : string) (rule : Rule)
    (alt : list Symbol) (st st1 : RandomState) :
  PyDict.get (rules (g self)) symbol = Some rule ->
  random_choice (rhs rule) st = Ok (alt, st1) ->
  _expand (S depth) self symbol st
  = match expand_loop (_expand depth self) self alt [] [] st1 with
    | Ok (children, tokens, st2) =>
        Ok (mkNode symbol children None, tokens, st2)
    | Raise e => Raise e
    end.
Proof.
  intros G C. cbn [_expand]. unfold expand_body.
  rewrite (get_has _ _ _ G), G. cbn [negb]. unfold bind. rewrite C.
  destruct (expand_loop (_expand depth self) self alt [] [] st1)
    as [[[ch tk] st2]|e]; reflexivity.
Qed.

Lemma encounters_raises {F : Type} `{FloatOps F}
    (grammar : Grammar) (lexicon : Lexicon F) (depth : nat)
    (symbol : string) (st : RandomState) :
  encounters (generator_of grammar lexicon) depth symbol st ->
  _expand depth (generator_of grammar lexicon) symbol st
  = Raise (ValueError "Unknown symbol type").
Proof.
  induction 1 as [d symbol rule pre obj post st st1 r G C L
                 |d symbol rule pre s post st st1 ch tk st2 G C L _ IH].
  - rewrite (expand_step d (generator_of grammar lexicon)
               symbol rule _ st st1 G C).
    now rewrite (expand_loop_other grammar lexicon _ pre post obj st1 r L).
  - rewrite (expand_step d (generator_of grammar lexicon)
               symbol rule _ st st1 G C).
    rewrite (expand_loop_app grammar lexicon), L.
    cbn [expand_loop]. unfold bind. now rewrite IH.
Qed.

Lemma linearize_not_value (tokens : list string) (msg : string) :
  _linearize tokens <> Raise (ValueError msg).
Proof.
  unfold _linearize. destruct tokens as [|w rest]; [discriminate|].
  cbv zeta.
  match goal with
  | |- context [match ?x with EmptyString => _ | String _ _ => _ end] =>
      destruct x
  end; [discriminate|].
  match goal with
  | |- context [if ?b then _ else _] => destruct b
  end; discriminate.
Qed.

Lemma generate_raises_expand {F : Type} `{FloatOps F}
    (self : SentenceGenerator F) (depth : nat) (st : RandomState) (e : exn) :
  _expand depth self (start (g self)) st = Raise e ->
  generate depth self st = Raise e.
Proof. intros E. unfold generate, bind. now rewrite E. Qed.

(** C7, as the code has it. When an expansion comes to a symbol that is
    neither a [str] nor a [tuple], in its own alternative or in a nested
    one, [_expand] raises [ValueError] with the message "Unknown symbol
    type" and so does [generate]: nothing on the way catches it, and a
    [generate] that returns came to no such symbol.  On a rule set whose
    symbols are all strings or slot markers neither raises [ValueError].
    A tuple that is no slot marker takes the slot branch all the same: when
    its first component is an integer or a string that is no slot name, the
    empty token is recorded and nothing is raised; the empty tuple raises
    [IndexError]. *)
Theorem unknown_symbol_is_fatal {F : Type} `{FloatOps F}
    (grammar : Grammar) (lexicon : Lexicon F) :
  let self := generator_of grammar lexicon in
  (forall depth symbol st,
     encounters self depth symbol st ->
     _expand depth self symbol st = Raise (ValueError "Unknown symbol type"))
  /\ (forall depth st,
        encounters self depth (start grammar) st ->
        generate depth self st = Raise (ValueError "Unknown symbol type"))
  /\ (forall depth st r,
        generate depth self st = Ok r ->
        ~ encounters self depth (start grammar) st)
  /\ (well_formed grammar = true ->
      forall depth symbol st msg,
        _expand depth self symbol st <> Raise (ValueError msg)
        /\ generate depth self st <> Raise (ValueError msg))
  /\ (forall rec first items rest children tokens st,
        (match first with
         | AInt _ => True
         | AStr name =>
             ~ In name ["<P>"; "<AUX>"; "<WH>"; "<DET>";
                        "<NOUN>"; "<VERB>"; "<ADJ>"]
         end) ->
        expand_loop rec self (SymTuple (first :: items) :: rest)
                    children tokens st
        = expand_loop rec self rest
            (children ++ [mkNode (atom_str first) [] (Some EmptyString)])%list
            (tokens ++ [EmptyString])%list st)
  /\ (forall rec rest children tokens st,
        expand_loop rec self (SymTuple [] :: rest) children tokens st
        = Raise (IndexError "tuple index out of range")).
Proof.
  cbv zeta.
  assert (NoValue : well_formed grammar = true ->
                    forall depth symbol st msg,
                      _expand depth (generator_of grammar lexicon) symbol st
                      <> Raise (ValueError msg)).
  { intros T depth symbol st msg E.
    refine (expand_raises grammar lexicon
              (fun e => forall m, e <> ValueError m) _ _ T
              depth symbol st (ValueError msg) E msg eq_refl).
    - discriminate.
    - intros l r e st0 _ C m0. apply random_choice_raises in C.
      destruct C as [_ ->]. discriminate. }
  split; [|split; [|split; [|split; [|split]]]].
  - intros depth symbol st. apply encounters_raises.
  - intros depth st E. apply generate_raises_expand.
    now apply encounters_raises.
  - intros depth st r Gen E.
    apply encounters_raises in E.
    apply (generate_raises_expand (generator_of grammar lexicon)) in E.
    rewrite E in Gen. discriminate Gen.
  - intros T depth symbol st msg. split; [now apply NoValue|].
    unfold generate, bind, lift.
    destruct (_expand depth (generator_of grammar lexicon)
                (start (g (generator_of grammar lexicon))) st)
      as [[[tree toks] st']|e] eqn:X.
    + destruct (_linearize (_postprocess toks)) as [text|e] eqn:L;
        [discriminate|].
      intros Q. inversion Q; subst.
      now apply linearize_not_value in L.
    + intros Q. inversion Q; subst. now apply NoValue in X.
  - intros rec first items rest children tokens st K.
    cbn [expand_loop]. unfold bind. destruct first as [name|n].
    + cbn [choose_for_first]. now rewrite (choose_unknown grammar lexicon).
    + reflexivity.
  - reflexivity.
Qed.

Lemma unknown_symbol_is_fatal_witness :
  generate 5 (generator_of grammar_with_int (@Lexicon_init fterm _))
           (draws [2; 0; 0; 1])
  = Raise (ValueError "Unknown symbol type")
  /\ generate 5 seed_generator (draws [2; 0; 0; 1])
     <> Raise (ValueError "Unknown symbol type")
  /\ expand_loop (_expand 3 seed_generator) seed_generator
       [SymTuple [AStr "<ADV>"; AStr "x"]] [] [] counting
     = Ok ([mkNode "<ADV>" [] (Some EmptyString)], [EmptyString], counting).
Proof.
  destruct (unknown_symbol_is_fatal grammar_with_int (@Lexicon_init fterm _))
    as (_ & Fatal & _).
  destruct (unknown_symbol_is_fatal Grammar_init (@Lexicon_init fterm _))
    as (_ & _ & _ & Never & Absorbed & _).
  split; [|split].
  - apply Fatal.
    eapply encounters_below with (pre := []) (s := "IMP") (post := []);
      [reflexivity | reflexivity | reflexivity |].
    eapply encounters_here with (pre := [SymStr "V"]) (obj := 7%Z)
                                (post := []);
      reflexivity.
  - apply (Never eq_refl 5 "S").
  - apply (Absorbed (_expand 3 seed_generator) (AStr "<ADV>") [AStr "x"] []
             [] [] counting).
    cbn [In]. intros D.
    repeat (destruct D as [D|D]; [discriminate D|]). exact D.
Defined.

(** C7 as stated fails: the tuple [(42,)] is neither a string nor a slot
    marker, and the expansion that meets it records the empty token and
    returns a sentence. *)
Lemma malformed_tuple_is_absorbed :
  text_of (generate 5
             (generator_of grammar_with_bad_tuple (@Lexicon_init fterm _))
             (draws [2; 0; 0; 1]))
  = Some "Like ."
  /\ well_typed_symbol (SymTuple [AInt 42]) = false.
Proof. split; [vm_compute; reflexivity | reflexivity]. Qed.

(* ------------------------------------------------------------------ *)
(** ** The seed grammar: the rule of the question mark *)
(* ------------------------------------------------------------------ *)

Section SeedGrammar.
Context {F : Type} `{FloatOps F}.
Variable lexicon : Lexicon F.

Let self : SentenceGenerator F := generator_of Grammar_init lexicon.

Lemma seed_well_formed : well_formed Grammar_init = true.
Proof. reflexivity. Qed.

Lemma seed_has_alternatives : has_alternatives Grammar_init = true.
Proof. reflexivity. Qed.

(** On the seed grammar an expansion returns or runs out of depth. *)
Lemma seed_expand_raises (depth : nat) (symbol : string) (st : RandomState)
    (e : exn) :
  _expand depth self symbol st = Raise e -> e = RecursionError.
Proof.
  apply (expand_raises Grammar_init lexicon (fun e => e = RecursionError)).
  - reflexivity.
  - intros l r e0 st0 I C. apply random_choice_raises in C.
    destruct C as [C _]. exfalso.
    pose proof seed_has_alternatives as A. unfold has_alternatives in A.
    rewrite forallb_forall in A. specialize (A _ I). cbn [snd] in A.
    rewrite C in A. discriminate.
  - exact seed_well_formed.
Qed.

Lemma seed_loop_raises (depth : nat) (alt : list Symbol)
    (children : list DerivationNode) (tokens : list string)
    (st : RandomState) (e : exn) :
  forallb well_typed_symbol alt = true ->
  expand_loop (_expand depth self) self alt children tokens st = Raise e ->
  e = RecursionError.
Proof.
  intros T E.
  eapply (expand_loop_raises Grammar_init lexicon
            (fun e => e = RecursionError) (_expand depth self) alt); eauto.
  intros s st0 e0. apply seed_expand_raises.
Qed.

(** ["?"] is a rule of the seed grammar whose one alternative is ["?"]
    again: expanding it only ever calls itself. *)
Lemma expand_question_mark (depth : nat) (st : RandomState) :
  _expand depth self "?" st = Raise RecursionError.
Proof.
  revert st; induction depth as [|d IH]; intros st; [reflexivity|].
  rewrite (expand_step d self "?" (mkRule "?" [nt ["?"]]) (nt ["?"])
             st (advance st)); [|reflexivity|apply random_choice_one].
  cbn [nt map expand_loop]. unfold bind. now rewrite IH.
Qed.

(** An alternative that ends in ["?"] never completes. *)
Lemma loop_to_question_mark (depth : nat) (pre : list Symbol)
    (st : RandomState) :
  forallb well_typed_symbol pre = true ->
  expand_loop (_expand depth self) self (pre ++ [SymStr "?"]) [] [] st
  = Raise RecursionError.
Proof.
  intros T. unfold self. rewrite expand_loop_app. fold self.
  destruct (expand_loop (_expand depth self) self pre [] [] st)
    as [[[ch tk] st1]|e] eqn:L.
  - cbn [expand_loop]. unfold bind. now rewrite expand_question_mark.
  - f_equal. eapply seed_loop_raises; eauto.
Qed.

Lemma expand_Q (depth : nat) (st : RandomState) :
  _expand depth self "Q" st = Raise RecursionError.
Proof.
  destruct depth as [|d]; [reflexivity|].
  destruct (random_choice
              [nt ["AUX"; "NP"; "V"; "NP"; "?"]; nt ["WH"; "V"; "NP"; "?"]] st)
    as [[alt st1]|e] eqn:C.
  2:{ apply random_choice_raises in C. destruct C; discriminate. }
  rewrite (expand_step d self "Q"
             (mkRule "Q" [nt ["AUX"; "NP"; "V"; "NP"; "?"];
                          nt ["WH"; "V"; "NP"; "?"]]) alt st st1);
    [|reflexivity|exact C].
  apply random_choice_In in C. destruct C as [[<-|[<-|[]]] _].
  - change (nt ["AUX"; "NP"; "V"; "NP"; "?"])
      with (nt ["AUX"; "NP"; "V"; "NP"] ++ [SymStr "?"])%list.
    now rewrite loop_to_question_mark.
  - change (nt ["WH"; "V"; "NP"; "?"])
      with (nt ["WH"; "V"; "NP"] ++ [SymStr "?"])%list.
    now rewrite loop_to_question_mark.
Qed.

Lemma expand_S_question (depth : nat) (st : RandomState) :
  picks_question st -> _expand depth self "S" st = Raise RecursionError.
Proof.
  intros P. destruct depth as [|d]; [reflexivity|].
  rewrite (expand_step d self "S"
             (mkRule "S" [nt ["CLAUSE"]; nt ["Q"]; nt ["IMP"]]) (nt ["Q"])
             st (advance st)); [|reflexivity|].
  - cbn [nt map expand_loop]. unfold bind. now rewrite expand_Q.
  - unfold random_choice. cbn [length rhs]. unfold picks_question in P.
    now rewrite P.
Qed.

End SeedGrammar.

(** C1, where the code departs from it. On the seed grammar, with any
    lexicon and any recursion limit, a call of [generate] whose first draw
    takes the question alternative of [S] does not return: it ends in
    [RecursionError], because the rule for ["?"] expands to ["?"]. *)
Theorem generate_question_never_returns {F : Type} `{FloatOps F}
    (lexicon : Lexicon F) (depth : nat) (st : RandomState) :
  picks_question st ->
  generate depth (generator_of Grammar_init lexicon) st
  = Raise RecursionError.
Proof.
  intros P. unfold generate, bind.
  change (start (g (generator_of Grammar_init lexicon))) with "S".
  now rewrite (expand_S_question lexicon depth st P).
Qed.

Lemma generate_question_never_returns_witness :
  picks_question (counting_from 1)
  /\ generate 1000 seed_generator (counting_from 1) = Raise RecursionError.
Proof.
  split; [reflexivity|].
  apply (generate_question_never_returns Lexicon_init 1000 (counting_from 1)).
  reflexivity.
Defined.

(* ------------------------------------------------------------------ *)
(** ** Determinism and the shared stream *)
(* ------------------------------------------------------------------ *)

(** C3 as stated fails: two generators built with the same seed, grammar
    and lexicon, and then asked in turn, draw from the one shared stream;
    the second continues where the first stopped. *)
Lemma same_seed_generators_differ :
  texts_of (construct_two_then_generate toy_prng 10 Grammar_init
              (@Lexicon_init fterm _) (Some 0%Z) counting)
  = Some ("Love chase sad with the sad love.", "Hate.")
  /\ "Love chase sad with the sad love." <> "Hate.".
Proof. split; [vm_compute; reflexivity | discriminate]. Qed.

(** C3, as the code has it. A generator built with a seed and asked at
    once gives a result that depends on the seed, the grammar and the
    lexicon only, whatever the shared stream was before: two such
    build-and-generate steps give the same text, the same printed tree and
    the same valence (or fail alike). *)
Theorem seeded_generate_deterministic {F : Type} `{FloatOps F}
    (prng : Z -> nat -> nat) (depth : nat) (grammar : Grammar)
    (lexicon : Lexicon F) (seed : Z) (st1 st2 : RandomState) :
  construct_and_generate prng depth grammar lexicon (Some seed) st1
  = construct_and_generate prng depth grammar lexicon (Some seed) st2
  /\ triple_of
       (construct_and_generate prng depth grammar lexicon (Some seed) st1)
     = triple_of
         (construct_and_generate prng depth grammar lexicon (Some seed) st2).
Proof.
  assert (E : construct_and_generate prng depth grammar lexicon (Some seed) st1
              = construct_and_generate prng depth grammar lexicon (Some seed)
                  st2).
  { unfold construct_and_generate, bind.
    now rewrite !init_builds. }
  split; [exact E | now rewrite E].
Qed.

(* ------------------------------------------------------------------ *)
(** ** The seed grammar: sentences that are produced *)
(* ------------------------------------------------------------------ *)

Lemma random_choice_total {A : Type} (seq : list A) (st : RandomState) :
  seq <> [] -> exists x, random_choice seq st = Ok (x, advance st) /\ In x seq.
Proof.
  intros N. destruct seq as [|d seq]; [congruence|].
  eexists. split; [reflexivity|].
  apply nth_In. apply randbelow_lt. simpl. lia.
Qed.

Lemma begins_returns (P : string -> bool) (X : string)
    (o : outcome (DerivationNode * list string * RandomState)) :
  begins P X o -> returns o.
Proof. intros (ch & w & rest & st' & -> & _). now eexists. Qed.

Create HintDb seed_expand.

Section SeedSentences.
Context {F : Type} `{FloatOps F}.
Variable lexicon : Lexicon F.
Hypothesis lexicon_lettered : lettered lexicon = true.

Let self : SentenceGenerator F := generator_of Grammar_init lexicon.

Lemma loop_returns (rec : string -> M (DerivationNode * list string))
    (alt : list Symbol) :
  (forall s, In (SymStr s) alt -> forall st, returns (rec s st)) ->
  forallb well_typed_symbol alt = true ->
  forall children tokens st,
  exists children' tokens' st',
    expand_loop rec self alt children tokens st
    = Ok (children', (tokens ++ tokens')%list, st').
Proof.
  induction alt as [|sym alt IH]; intros R T children tokens st.
  - exists children, [], st. now rewrite app_nil_r.
  - cbn [forallb] in T. apply andb_prop in T. destruct T as [Ts Ta].
    assert (R' : forall s, In (SymStr s) alt -> forall st, returns (rec s st))
      by (intros s I; apply R; now right).
    cbn [expand_loop]. unfold bind.
    destruct sym as [s|name attrs|obj|items]; [| |discriminate|discriminate].
    + destruct (R s (or_introl eq_refl) st) as [[[node toks] st1] E].
      rewrite E.
      destruct (IH R' Ta (children ++ [node])%list (tokens ++ toks)%list st1)
        as (ch' & tk' & st' & E').
      exists ch', (toks ++ tk')%list, st'. now rewrite E', app_assoc.
    + destruct (choose_returns Grammar_init lexicon name st)
        as (w & st1 & E).
      fold self in E. rewrite E.
      destruct (IH R' Ta (children ++ [mkNode name [] (Some w)])%list
                  (tokens ++ [w])%list st1) as (ch' & tk' & st' & E').
      exists ch', ([w] ++ tk')%list, st'. now rewrite E', app_assoc.
Qed.

Lemma loop_begins (rec : string -> M (DerivationNode * list string))
    (P : string -> bool) (s : string) (rest : list Symbol) :
  (forall st, begins P s (rec s st)) ->
  (forall s', In (SymStr s') rest -> forall st, returns (rec s' st)) ->
  forallb well_typed_symbol rest = true ->
  forall st,
  exists children w tokens st',
    expand_loop rec self (SymStr s :: rest) [] [] st
    = Ok (children, w :: tokens, st') /\ P w = true.
Proof.
  intros B R T st.
  destruct (B st) as (ch & w & tk & st1 & E & Pw).
  cbn [expand_loop]. unfold bind. rewrite E.
  destruct (loop_returns rec rest R T ([] ++ [mkNode s ch None])%list
              ([] ++ w :: tk)%list st1) as (ch' & tk' & st' & E').
  rewrite E'. exists ch', w, (tk ++ tk')%list, st'. split; [|exact Pw].
  reflexivity.
Qed.

(** A rule whose alternatives all start with a symbol that begins with a
    [P]-token, the other symbols returning, begins with a [P]-token. *)
Lemma expand_begins (d : nat) (X : string) (rule : Rule)
    (P : string -> bool) :
  PyDict.get (rules Grammar_init) X = Some rule ->
  rhs rule <> [] ->
  (forall alt, In alt (rhs rule) ->
     exists s rest,
       alt = SymStr s :: rest
       /\ (forall st, begins P s (_expand d self s st))
       /\ (forall s', In (SymStr s') rest ->
                      forall st, returns (_expand d self s' st))
       /\ forallb well_typed_symbol rest = true) ->
  forall st, begins P X (_expand (S d) self X st).
Proof.
  intros G N A st.
  destruct (random_choice_total (rhs rule) st N) as (alt & C & I).
  rewrite (expand_step d self X rule alt st (advance st) G C).
  destruct (A alt I) as (s & rest & -> & B & R & T).
  destruct (loop_begins (_expand d self) P s rest B R T (advance st))
    as (ch & w & tk & st' & E & Pw).
  rewrite E. now exists ch, w, tk, st'.
Qed.

(** A rule whose one alternative is one slot. *)
Lemma expand_preterminal (d : nat) (X name : string) (P : string -> bool) :
  PyDict.get (rules Grammar_init) X = Some (mkRule X [[slot name]]) ->
  (forall st, exists w st',
     _choose_for_pos self name st = Ok (w, st') /\ P w = true) ->
  forall st, begins P X (_expand (S d) self X st).
Proof.
  intros G C st.
  rewrite (expand_step d self X (mkRule X [[slot name]]) [slot name]
             st (advance st) G (random_choice_one _ st)).
  destruct (C (advance st)) as (w & st' & E & Pw).
  unfold slot. cbn [expand_loop]. unfold bind. rewrite E.
  cbn [expand_loop ret app].
  now exists [mkNode name [] (Some w)], w, [], st'.
Qed.

Lemma choose_closed (name : string) (ws : list string) (st : RandomState) :
  ws <> [] ->
  forallb starts_with_letter ws = true ->
  _choose_for_pos self name st = random_choice ws st ->
  exists w st',
    _choose_for_pos self name st = Ok (w, st') /\ starts_with_letter w = true.
Proof.
  intros N L E. destruct (random_choice_total ws st N) as (w & C & I).
  exists w, (advance st). rewrite E. split; [exact C|].
  rewrite forallb_forall in L. now apply L.
Qed.

Lemma or_default_lettered (tag default : string) :
  forallb starts_with_letter (words_for_pos lexicon tag) = true ->
  starts_with_letter default = true ->
  forallb starts_with_letter (or_default (words_for_pos lexicon tag) default)
  = true.
Proof.
  intros L D. destruct (words_for_pos lexicon tag) as [|w ws]; cbn [or_default].
  - cbn [forallb]. now rewrite D.
  - exact L.
Qed.

Lemma choose_noun (st : RandomState) :
  exists w st',
    _choose_for_pos self "<NOUN>" st = Ok (w, st')
    /\ starts_with_letter w = true.
Proof.
  unfold lettered in lexicon_lettered.
  apply andb_prop in lexicon_lettered. destruct lexicon_lettered as [LN _].
  apply (choose_closed "<NOUN>"
           (or_default (words_for_pos lexicon "NOUN") "cat")).
  - apply or_default_nonempty.
  - now apply or_default_lettered.
  - reflexivity.
Qed.

Lemma choose_verb (st : RandomState) :
  exists w st',
    _choose_for_pos self "<VERB>" st = Ok (w, st')
    /\ starts_with_letter w = true.
Proof.
  unfold lettered in lexicon_lettered.
  apply andb_prop in lexicon_lettered. destruct lexicon_lettered as [_ LV].
  apply (choose_closed "<VERB>"
           (or_default (words_for_pos lexicon "VERB") "see")).
  - apply or_default_nonempty.
  - now apply or_default_lettered.
  - reflexivity.
Qed.

Lemma choose_det (st : RandomState) :
  exists w st',
    _choose_for_pos self "<DET>" st = Ok (w, st')
    /\ starts_with_letter w = true.
Proof.
  apply (choose_closed "<DET>" ["the"; "a"; "an"]);
    [discriminate | reflexivity | reflexivity].
Qed.

Lemma choose_some (name : string) (st : RandomState) :
  exists w st',
    _choose_for_pos self name st = Ok (w, st') /\ (fun _ => true) w = true.
Proof.
  destruct (choose_returns Grammar_init lexicon name st) as (w & st' & E).
  now exists w, st'.
Qed.

Lemma N_begins (d : nat) (st : RandomState) :
  begins starts_with_letter "N" (_expand (S d) self "N" st).
Proof.
  apply (expand_preterminal d "N" "<NOUN>"); [reflexivity | apply choose_noun].
Qed.

Lemma V_begins (d : nat) (st : RandomState) :
  begins starts_with_letter "V" (_expand (S d) self "V" st).
Proof.
  apply (expand_preterminal d "V" "<VERB>"); [reflexivity | apply choose_verb].
Qed.

Lemma DET_begins (d : nat) (st : RandomState) :
  begins starts_with_letter "DET" (_expand (S d) self "DET" st).
Proof.
  apply (expand_preterminal d "DET" "<DET>"); [reflexivity | apply choose_det].
Qed.

Lemma ADJ_returns (d : nat) (st : RandomState) :
  returns (_expand (S d) self "ADJ" st).
Proof.
  apply (begins_returns (fun _ => true) "ADJ").
  apply (expand_preterminal d "ADJ" "<ADJ>");
    [reflexivity | apply choose_some].
Qed.

Lemma P_returns (d : nat) (st : RandomState) :
  returns (_expand (S d) self "P" st).
Proof.
  apply (begins_returns (fun _ => true) "P").
  apply (expand_preterminal d "P" "<P>"); [reflexivity | apply choose_some].
Qed.

Lemma N_returns (d : nat) (st : RandomState) :
  returns (_expand (S d) self "N" st).
Proof. eapply begins_returns. apply N_begins. Qed.

Lemma V_returns (d : nat) (st : RandomState) :
  returns (_expand (S d) self "V" st).
Proof. eapply begins_returns. apply V_begins. Qed.

Hint Resolve N_begins V_begins DET_begins ADJ_returns P_returns
  N_returns V_returns : seed_expand.

(** The alternatives of a rule, one by one: the head symbol begins with a
    letter-initial token and the rest returns. *)
Ltac each_alternative :=
  intros alt I; cbn [rhs nt map] in I;
  repeat (destruct I as [I|I];
          [subst alt; eexists; eexists;
           split; [reflexivity|];
           split; [intros st0; auto with seed_expand|];
           split; [|reflexivity];
           intros s' J st0; cbn [In] in J;
           repeat (destruct J as [J|J];
                   [inversion J; subst s'; auto with seed_expand|]);
           contradiction
          |]);
  contradiction.

Lemma NP_begins (d : nat) (st : RandomState) :
  begins starts_with_letter "NP" (_expand (S (S d)) self "NP" st).
Proof.
  apply (expand_begins (S d) "NP"
           (mkRule "NP" [nt ["DET"; "N"]; nt ["DET"; "ADJ"; "N"]; nt ["N"]]));
    [reflexivity | discriminate | each_alternative].
Qed.

Lemma NP_returns (d : nat) (st : RandomState) :
  returns (_expand (S (S d)) self "NP" st).
Proof. eapply begins_returns. apply NP_begins. Qed.

Hint Resolve NP_begins NP_returns : seed_expand.

Lemma VP_begins (d : nat) (st : RandomState) :
  begins starts_with_letter "VP" (_expand (S (S (S d))) self "VP" st).
Proof.
  apply (expand_begins (S (S d)) "VP"
           (mkRule "VP" [nt ["V"; "NP"]; nt ["V"]; nt ["V"; "ADJ"]]));
    [reflexivity | discriminate | each_alternative].
Qed.

Lemma VP_returns (d : nat) (st : RandomState) :
  returns (_expand (S (S (S d))) self "VP" st).
Proof. eapply begins_returns. apply VP_begins. Qed.

Lemma PP_returns (d : nat) (st : RandomState) :
  returns (_expand (S (S (S d))) self "PP" st).
Proof.
  apply (begins_returns (fun _ => true) "PP").
  apply (expand_begins (S (S d)) "PP" (mkRule "PP" [nt ["P"; "NP"]]));
    [reflexivity | discriminate |].
  intros alt [<-|[]]. exists "P", (nt ["NP"]).
  split; [reflexivity|]. split; [|split; [|reflexivity]].
  - intros st0. apply (expand_preterminal (S d) "P" "<P>");
      [reflexivity | apply choose_some].
  - intros s' [J|[]] st0. inversion J; subst s'. auto with seed_expand.
Qed.

Hint Resolve VP_begins VP_returns PP_returns : seed_expand.

Lemma CLAUSE_begins (d : nat) (st : RandomState) :
  begins starts_with_letter "CLAUSE"
         (_expand (S (S (S (S d)))) self "CLAUSE" st).
Proof.
  apply (expand_begins (S (S (S d))) "CLAUSE"
           (mkRule "CLAUSE" [nt ["NP"; "VP"]; nt ["NP"; "VP"; "PP"]]));
    [reflexivity | discriminate | each_alternative].
Qed.

Lemma IMP_begins (d : nat) (st : RandomState) :
  begins starts_with_letter "IMP" (_expand (S (S (S d))) self "IMP" st).
Proof.
  apply (expand_begins (S (S d)) "IMP"
           (mkRule "IMP" [nt ["V"; "NP"]; nt ["V"]]));
    [reflexivity | discriminate | each_alternative].
Qed.

(** From [S], when the first draw does not take the question. *)
Lemma S_begins (d : nat) (st : RandomState) :
  ~ picks_question st ->
  begins starts_with_letter "S"
         (_expand (S (S (S (S (S d))))) self "S" st).
Proof.
  intros NQ.
  assert (C : exists X,
             (X = "CLAUSE" \/ X = "IMP")
             /\ random_choice [nt ["CLAUSE"]; nt ["Q"]; nt ["IMP"]] st
                = Ok (nt [X], advance st)).
  { unfold random_choice. cbn [length].
    pose proof (randbelow_lt 3 st ltac:(lia)) as B.
    unfold picks_question in NQ.
    destruct (randbelow 3 st) as [|[|[|n]]] eqn:R.
    - exists "CLAUSE". split; [now left | reflexivity].
    - congruence.
    - exists "IMP". split; [now right | reflexivity].
    - lia. }
  destruct C as (X & HX & C).
  rewrite (expand_step _ self "S"
             (mkRule "S" [nt ["CLAUSE"]; nt ["Q"]; nt ["IMP"]]) (nt [X])
             st (advance st) eq_refl C).
  assert (B : forall st0,
             begins starts_with_letter X
                    (_expand (S (S (S (S d)))) self X st0)).
  { intros st0. destruct HX as [->| ->];
      [apply CLAUSE_begins | apply IMP_begins]. }
  destruct (loop_begins (_expand (S (S (S (S d)))) self) starts_with_letter
              X [] B ltac:(intros s' []) eq_refl (advance st))
    as (ch & w & tk & st' & E & Pw).
  cbn [nt map]. rewrite E. now exists ch, w, tk, st'.
Qed.

End SeedSentences.

(* ------------------------------------------------------------------ *)
(** ** From tokens to text *)
(* ------------------------------------------------------------------ *)

Lemma fix_article_cases (tokens : list string) (i : nat) (tok : string) :
  fix_article tokens i tok = tok \/ fix_article tokens i tok = "an".
Proof.
  unfold fix_article.
  destruct (String.eqb (PyStr.lower tok) "a" && (i + 1 <? length tokens)%nat);
    [|now left].
  cbv zeta.
  destruct (PyStr.lower (nth (i + 1) tokens EmptyString)) as [|c r];
    [now left|].
  destruct (PyStr.contains "aeiou" (String c EmptyString));
    [now right | now left].
Qed.

Lemma postprocess_head (w : string) (rest : list string) :
  starts_with_letter w = true ->
  exists w' rest',
    _postprocess (w :: rest) = w' :: rest' /\ starts_with_letter w' = true.
Proof.
  intros L. rewrite postprocess_spec. cbn [length seq map].
  eexists. eexists. split; [reflexivity|]. cbn [nth].
  destruct (fix_article_cases (w :: rest) 0 w) as [-> | ->];
    [exact L | reflexivity].
Qed.

Lemma join_head (sep : string) (c : ascii) (r : string)
    (rest : list string) :
  exists body, PyStr.join sep (String c r :: rest) = String c body.
Proof.
  destruct rest as [|x rest]; cbn [PyStr.join].
  - now exists r.
  - now eexists.
Qed.

Lemma alpha_not_space (c : ascii) :
  PyStr.is_alpha c = true -> Ascii.eqb " " c = false.
Proof.
  intros A. destruct (Ascii.eqb_spec " "%char c) as [<-|]; [|reflexivity].
  discriminate A.
Qed.

Lemma replace_head (c : ascii) (r p new : string) :
  Ascii.eqb " " c = false ->
  exists body,
    PyStr.replace (String c r) (String " " p) new = String c body.
Proof.
  intros N. unfold PyStr.replace. cbn [PyStr.replace_from PyStr.startswith].
  rewrite N. cbn [andb]. now eexists.
Qed.

Lemma upper_alpha (c : ascii) :
  PyStr.is_alpha c = true -> PyStr.is_upper (PyStr.upper_char c) = true.
Proof.
  destruct c as [[] [] [] [] [] [] [] []];
    vm_compute; intros E; first [reflexivity | discriminate E].
Qed.

Lemma last_char_snoc (p : string) (c : ascii) :
  PyStr.last_char (p ++ String c EmptyString) = Some c.
Proof.
  induction p as [|a p IH]; [reflexivity|].
  cbn [append PyStr.last_char]. rewrite IH.
  destruct (p ++ String c EmptyString) eqn:E; [|reflexivity].
  destruct p; discriminate E.
Qed.

Lemma endswith_last (s : string) (d : ascii) :
  PyStr.endswith s (String d EmptyString) = true ->
  PyStr.last_char s = Some d.
Proof.
  destruct (split_last s) as [[p l]|] eqn:E.
  - apply split_last_some in E. subst s.
    rewrite endswith_one, last_char_snoc.
    intros Q. apply Ascii.eqb_eq in Q. now subst.
  - apply split_last_none in E. subst s. discriminate.
Qed.

Lemma linearize_well_formed (w : string) (rest : list string) :
  starts_with_letter w = true ->
  exists text, _linearize (w :: rest) = Ok text /\ well_formed_text text.
Proof.
  intros L. destruct w as [|c r]; [discriminate L|]. cbn in L.
  pose proof (alpha_not_space c L) as N.
  unfold _linearize.
  destruct (join_head " " c r rest) as (b0 & ->).
  destruct (replace_head c b0 "?" "?" N) as (b1 & ->).
  destruct (replace_head c b1 "," "," N) as (b2 & ->).
  cbv zeta.
  assert (U : PyStr.first_char (String (PyStr.upper_char c) b2)
              = Some (PyStr.upper_char c)) by reflexivity.
  destruct (PyStr.endswith_any (String (PyStr.upper_char c) b2)
              ["."; "?"; "!"]) eqn:E; cbn [negb].
  - eexists. split; [reflexivity|]. split; [discriminate|]. split.
    + exists (PyStr.upper_char c). split; [exact U | now apply upper_alpha].
    + unfold PyStr.endswith_any in E. cbn [existsb] in E.
      apply orb_prop in E. destruct E as [E|E];
        [|apply orb_prop in E; destruct E as [E|E];
          [|apply orb_prop in E; destruct E as [E|E]; [|discriminate E]]];
        apply endswith_last in E; eexists; (split; [exact E|]);
        cbn [In]; tauto.
  - eexists. split; [reflexivity|]. split; [discriminate|]. split.
    + exists (PyStr.upper_char c). split; [reflexivity | now apply upper_alpha].
    + exists "."%char. split; [|cbn [In]; tauto].
      apply (last_char_snoc (String (PyStr.upper_char c) b2) ".").
Qed.

Lemma fold_left_prefix (f : DerivationNode -> string)
    (children : list DerivationNode) (init : string) :
  exists tail,
    fold_left (fun out ch => out ++ f ch) children init = init ++ tail.
Proof.
  revert init; induction children as [|ch children IH]; intros init.
  - exists EmptyString. cbn [fold_left]. now rewrite app_empty_r.
  - cbn [fold_left]. destruct (IH (init ++ f ch)) as (tail & ->).
    exists (f ch ++ tail). now rewrite app_assoc_str.
Qed.

Lemma pretty_root (X : string) (children : list DerivationNode) :
  exists tail, pretty (mkNode X children None) 0 = X ++ tail.
Proof.
  cbn [pretty PyStr.repeat_str].
  destruct (fold_left_prefix (fun ch => pretty ch (0 + 1)) children
              (EmptyString ++ X ++ newline)) as (tail & ->).
  exists (newline ++ tail). cbn [append]. now rewrite app_assoc_str.
Qed.

Lemma contains_first (c : ascii) (tail : string) :
  PyStr.contains (String c tail) (String c EmptyString) = true.
Proof.
  cbn [PyStr.contains PyStr.startswith]. rewrite Ascii.eqb_refl.
  destruct tail; reflexivity.
Qed.

(* ------------------------------------------------------------------ *)
(** ** Valence over the reals *)
(* ------------------------------------------------------------------ *)

Lemma tanh_bounds (x : R) : (-1 < tanh x < 1)%R.
Proof.
  unfold tanh, sinh, cosh.
  pose proof (exp_pos x) as A. pose proof (exp_pos (- x)) as B.
  set (a := exp x) in *. set (b := exp (- x)) in *.
  replace ((a - b) / 2 / ((a + b) / 2))%R with ((a - b) / (a + b))%R
    by (field; lra).
  split.
  - apply Rmult_lt_reg_r with (a + b)%R; [lra|].
    unfold Rdiv. rewrite Rmult_assoc, Rinv_l by lra. lra.
  - apply Rmult_lt_reg_r with (a + b)%R; [lra|].
    unfold Rdiv. rewrite Rmult_assoc, Rinv_l by lra. lra.
Qed.

Lemma fold_valence_bounds (lexicon : Lexicon R) (tokens : list string) :
  (-1 <= valence (fold_valence lexicon tokens (mkEmotion (fdec 0 1))) <= 1)%R.
Proof.
  rewrite fold_valence_spec. cbn [valence].
  assert (Z0 : (-1 <= fdec 0 1 <= 1)%R).
  { cbn [fdec RealFloat]. unfold Rdiv. rewrite Rmult_0_l. lra. }
  revert Z0. generalize (fdec 0 1 : R).
  induction (map (polarity_of lexicon) tokens) as [|p ps IH]; intros v Hv.
  - exact Hv.
  - cbn [fold_left]. apply IH. cbn [ftanh fadd RealFloat].
    pose proof (tanh_bounds (v + p)). lra.
Qed.

(* ------------------------------------------------------------------ *)
(** ** Generation on the seed grammar *)
(* ------------------------------------------------------------------ *)

(** C2 as stated fails: with "42" added as a NOUN the sentence can start
    with a digit, which is not an uppercase character. *)
Lemma generate_text_may_start_with_digit :
  text_of (generate 10 (generator_of Grammar_init lexicon_with_42)
             (draws [0; 0; 2; 0; 5; 1; 0; 0]))
  = Some "42 see."
  /\ option_map PyStr.is_upper (PyStr.first_char "42 see.") = Some false.
Proof. split; [vm_compute; reflexivity | reflexivity]. Qed.

(** C2, as the code has it. On the seed grammar, with a lexicon whose NOUN
    and VERB words start with a letter and real polarities, a call of
    [generate] whose first draw takes the clause or the imperative
    alternative of [S] returns (five nested calls of [_expand] suffice); the
    text is not empty, starts with an uppercase character and ends with one
    of [.], [?], [!]; the valence is in [-1, 1]; and the printed tree
    contains "S". *)
Theorem seed_generate_well_formed
    (lexicon : Lexicon R) (depth : nat) (st : RandomState) :
  lettered lexicon = true ->
  5 <= depth ->
  ~ picks_question st ->
  exists text tree field st',
    generate depth (generator_of Grammar_init lexicon) st
    = Ok (text, tree, field, st')
    /\ well_formed_text text
    /\ (-1 <= valence field <= 1)%R
    /\ (PyStr.contains (pretty tree 0) "S" = true
        \/ PyStr.contains (pretty tree 0) "CLAUSE" = true).
Proof.
  intros L D NQ.
  destruct depth as [|[|[|[|[|d]]]]]; try lia.
  destruct (S_begins lexicon L d st NQ) as (ch & w & tk & st' & E & Pw).
  destruct (postprocess_head w tk Pw) as (w' & tk' & PP & Pw').
  destruct (linearize_well_formed w' tk' Pw') as (text & Lin & WF).
  rewrite <- PP in Lin.
  exists text, (mkNode "S" ch None),
    (fold_valence lexicon (_postprocess (w :: tk)) (mkEmotion (fdec 0 1))),
    st'.
  split; [|split; [exact WF | split]].
  - exact (generate_intro _ (generator_of Grammar_init lexicon)
             st st' text _ (w :: tk) E Lin).
  - apply fold_valence_bounds.
  - left. destruct (pretty_root "S" ch) as (tail & ->).
    apply (contains_first "S" tail).
Qed.

Lemma seed_generate_well_formed_witness :
  exists text tree field st',
    generate 5 (generator_of Grammar_init (@Lexicon_init R _)) counting
    = Ok (text, tree, field, st')
    /\ well_formed_text text
    /\ (-1 <= valence field <= 1)%R
    /\ (PyStr.contains (pretty tree 0) "S" = true
        \/ PyStr.contains (pretty tree 0) "CLAUSE" = true).
Proof.
  apply (seed_generate_well_formed (@Lexicon_init R _) 5 counting).
  - reflexivity.
  - lia.
  - unfold picks_question. vm_compute. discriminate.
Defined.

(* ------------------------------------------------------------------ *)
(** ** Morphology: the shape of the results *)
(* ------------------------------------------------------------------ *)

Lemma endswith_snoc3 (p : string) (a b c : ascii) (d : ascii) :
  PyStr.endswith (p ++ String a (String b (String c EmptyString)))
                 (String d EmptyString)
  = Ascii.eqb c d.
Proof.
  replace (p ++ String a (String b (String c EmptyString)))
    with ((p ++ String a (String b EmptyString)) ++ String c EmptyString)
    by (now rewrite app_assoc_str).
  apply endswith_one.
Qed.

Lemma endswith_snoc2 (p : string) (a b : ascii) (d : ascii) :
  PyStr.endswith (p ++ String a (String b EmptyString))
                 (String d EmptyString)
  = Ascii.eqb b d.
Proof.
  replace (p ++ String a (String b EmptyString))
    with ((p ++ String a EmptyString) ++ String b EmptyString)
    by (now rewrite app_assoc_str).
  apply endswith_one.
Qed.

Lemma endswith_y_inv (s : string) :
  PyStr.endswith s "y" = true -> exists p, s = p ++ "y".
Proof.
  intros E. destruct (split_last s) as [[p c]|] eqn:S.
  - apply split_last_some in S. subst s. rewrite endswith_one in E.
    apply Ascii.eqb_eq in E. subst c. now exists p.
  - apply split_last_none in S. subst s. discriminate E.
Qed.

(** X1. [pluralize] and [third_person_singular] give the input followed by
    "s" or by "es", or the input with its final "y" turned into "ies"; in
    every case the result ends with "s". *)
Theorem pluralize_shape (s : string) :
  (Morphology.pluralize s = s ++ "s"
   \/ Morphology.pluralize s = s ++ "es"
   \/ exists p, s = p ++ "y" /\ Morphology.pluralize s = p ++ "ies")
  /\ PyStr.endswith (Morphology.pluralize s) "s" = true
  /\ PyStr.endswith (Morphology.third_person_singular s) "s" = true.
Proof.
  assert (P : PyStr.endswith (Morphology.pluralize s) "s" = true).
  { unfold Morphology.pluralize.
    destruct (PyStr.endswith s "y" && (1 <? String.length s)%nat
              && negb (Morphology.in_VOWELS (PyStr.from_end s 2))).
    - apply (endswith_snoc3 (PyStr.drop_last s) "i" "e" "s" "s").
    - destruct (PyStr.endswith_any s ["s"; "x"; "z"; "ch"; "sh"]).
      + apply (endswith_snoc2 s "e" "s" "s").
      + apply (endswith_one s "s" "s"). }
  split; [|split; [exact P | exact P]].
  unfold Morphology.pluralize.
  destruct (PyStr.endswith s "y") eqn:Y; cbn [andb].
  - destruct (endswith_y_inv s Y) as (p & ->).
    rewrite drop_last_snoc.
    destruct ((1 <? String.length (p ++ "y"))%nat
              && negb (Morphology.in_VOWELS (PyStr.from_end (p ++ "y") 2))).
    + right; right. now exists p.
    + destruct (PyStr.endswith_any (p ++ "y") ["s"; "x"; "z"; "ch"; "sh"]);
        [right; now left | now left].
  - destruct (PyStr.endswith_any s ["s"; "x"; "z"; "ch"; "sh"]);
      [right; now left | now left].
Qed.

(** X2. [past_tense] gives the input followed by "d" when it ends in "e",
    otherwise the input with a final "y" after a non-vowel turned into
    "ied", otherwise the input followed by "ed"; the result always ends
    with "d", and an input that ends in "e" is never doubled to "eed". *)
Theorem past_tense_shape (s : string) :
  (Morphology.past_tense s = s ++ "d"
   \/ Morphology.past_tense s = s ++ "ed"
   \/ exists p, s = p ++ "y" /\ Morphology.past_tense s = p ++ "ied")
  /\ PyStr.endswith (Morphology.past_tense s) "d" = true
  /\ (PyStr.endswith s "e" = true -> Morphology.past_tense s = s ++ "d")
  /\ (PyStr.endswith s "e" = false -> PyStr.endswith s "y" = false ->
      Morphology.past_tense s = s ++ "ed").
Proof.
  unfold Morphology.past_tense.
  split; [|split; [|split]].
  - destruct (PyStr.endswith s "e"); [now left|].
    destruct (PyStr.endswith s "y") eqn:Y; cbn [andb].
    + destruct (endswith_y_inv s Y) as (p & ->).
      rewrite drop_last_snoc.
      destruct ((1 <? String.length (p ++ "y"))%nat
                && negb (Morphology.in_VOWELS (PyStr.from_end (p ++ "y") 2)));
        [right; right; now exists p | right; now left].
    + right; now left.
  - destruct (PyStr.endswith s "e").
    + apply (endswith_one s "d" "d").
    + destruct (PyStr.endswith s "y" && (1 <? String.length s)%nat
                && negb (Morphology.in_VOWELS (PyStr.from_end s 2))).
      * apply (endswith_snoc3 (PyStr.drop_last s) "i" "e" "d" "d").
      * apply (endswith_snoc2 s "e" "d" "d").
  - intros ->. reflexivity.
  - intros -> ->. reflexivity.
Qed.

Lemma past_tense_shape_witness :
  Morphology.past_tense "chase" = "chased"
  /\ Morphology.past_tense "walk" = "walked".
Proof.
  destruct (past_tense_shape "chase") as (_ & _ & E & _).
  destruct (past_tense_shape "walk") as (_ & _ & _ & N).
  split; [apply E | apply N]; reflexivity.
Defined.

(* ------------------------------------------------------------------ *)
(** ** Lexicon: case, overwriting, invariants *)
(* ------------------------------------------------------------------ *)

Lemma lower_upper_char (c : ascii) :
  PyStr.lower_char (PyStr.upper_char c) = PyStr.lower_char c.
Proof. destruct c as [[] [] [] [] [] [] [] []]; reflexivity. Qed.

Lemma upper_lower_char (c : ascii) :
  PyStr.upper_char (PyStr.lower_char c) = PyStr.upper_char c.
Proof. destruct c as [[] [] [] [] [] [] [] []]; reflexivity. Qed.

Lemma upper_char_idem (c : ascii) :
  PyStr.upper_char (PyStr.upper_char c) = PyStr.upper_char c.
Proof. destruct c as [[] [] [] [] [] [] [] []]; reflexivity. Qed.

Lemma map_str_compose (f h k : ascii -> ascii) (s : string) :
  (forall c, f (h c) = k c) ->
  PyStr.map_str f (PyStr.map_str h s) = PyStr.map_str k s.
Proof.
  intros E. induction s as [|c s IH]; cbn [PyStr.map_str];
    [reflexivity | now rewrite E, IH].
Qed.

Lemma ascii_not_lead (c : ascii) :
  (nat_of_ascii c <? 128)%nat = true -> Ascii.eqb c "196" = false.
Proof.
  destruct (Ascii.eqb_spec c "196"%char) as [->|]; [discriminate|reflexivity].
Qed.

Lemma upper_char_ascii (c : ascii) :
  (nat_of_ascii c <? 128)%nat = true ->
  (nat_of_ascii (PyStr.upper_char c) <? 128)%nat = true.
Proof.
  destruct c as [[] [] [] [] [] [] [] []]; vm_compute; intros E;
    first [reflexivity | discriminate E].
Qed.

Lemma lower_ascii (s : string) :
  ascii_only s = true -> PyStr.lower s = PyStr.map_str PyStr.lower_char s.
Proof.
  induction s as [|c s IH]; cbn [ascii_only PyStr.map_str];
    [reflexivity|].
  intros A. apply andb_prop in A. destruct A as [Ac As].
  now rewrite (lower_cons c s (ascii_not_lead c Ac)), IH.
Qed.

Lemma upper_ascii_only (s : string) :
  ascii_only s = true -> ascii_only (PyStr.upper s) = true.
Proof.
  unfold PyStr.upper.
  induction s as [|c s IH]; cbn [ascii_only PyStr.map_str];
    [reflexivity|].
  intros A. apply andb_prop in A. destruct A as [Ac As].
  now rewrite (upper_char_ascii c Ac), IH.
Qed.

Lemma lower_upper (s : string) :
  ascii_only s = true -> PyStr.lower (PyStr.upper s) = PyStr.lower s.
Proof.
  intros A. rewrite (lower_ascii _ (upper_ascii_only s A)), (lower_ascii s A).
  apply map_str_compose, lower_upper_char.
Qed.

Lemma upper_lower (s : string) :
  ascii_only s = true -> PyStr.upper (PyStr.lower s) = PyStr.upper s.
Proof.
  intros A. rewrite (lower_ascii s A).
  apply map_str_compose, upper_lower_char.
Qed.

Lemma upper_idem (s : string) : PyStr.upper (PyStr.upper s) = PyStr.upper s.
Proof. apply map_str_compose, upper_char_idem. Qed.

Section DictMore.
Context {V : Type}.
Implicit Types (d : PyDict.dict V) (k : string) (v : V).

Lemma get_None d k : ~ In k (PyDict.keys d) -> PyDict.get d k = None.
Proof.
  induction d as [|[k' v'] d IH]; cbn [PyDict.get PyDict.keys map fst In];
    intros N; [reflexivity|].
  destruct (String.eqb_spec k' k); [exfalso; tauto|].
  apply IH. unfold PyDict.keys. tauto.
Qed.

Lemma mem_In d k : PyDict.mem d k = true <-> In k (PyDict.keys d).
Proof.
  unfold PyDict.mem. split.
  - destruct (PyDict.get d k) as [v|] eqn:G; [|discriminate].
    intros _. apply get_In in G.
    apply (in_map fst) in G. exact G.
  - intros I. destruct (PyDict.get d k) eqn:G; [reflexivity|].
    exfalso. revert G. induction d as [|[k' v'] d IH];
      cbn [PyDict.get PyDict.keys map fst In] in *; [tauto|].
    destruct (String.eqb_spec k' k); [discriminate|].
    destruct I as [I|I]; [congruence|]. now apply IH.
Qed.

Lemma set_set d k v1 v2 :
  PyDict.set (PyDict.set d k v1) k v2 = PyDict.set d k v2.
Proof.
  induction d as [|[k' v'] d IH]; cbn [PyDict.set].
  - now rewrite String.eqb_refl.
  - destruct (String.eqb k' k) eqn:E; cbn [PyDict.set]; rewrite E;
      [reflexivity | now rewrite IH].
Qed.

Lemma set_fresh d k v :
  PyDict.mem d k = false -> PyDict.set d k v = (d ++ [(k, v)])%list.
Proof.
  unfold PyDict.mem.
  induction d as [|[k' v'] d IH]; cbn [PyDict.set PyDict.get app];
    [reflexivity|].
  destruct (String.eqb k' k); [discriminate|].
  intros G. now rewrite IH.
Qed.

Lemma In_set d k v x e :
  NoDup (PyDict.keys d) ->
  In (x, e) (PyDict.set d k v)
  <-> (x = k /\ e = v) \/ (x <> k /\ In (x, e) d).
Proof.
  induction d as [|[k' v'] d IH]; cbn [PyDict.set PyDict.keys map fst];
    intros N.
  - cbn [In]. split.
    + intros [E|[]]. inversion E. now left.
    + intros [[-> ->]|[_ []]]. now left.
  - inversion N as [|? ? Nk Nd]; subst.
    destruct (String.eqb_spec k' k) as [->|Ne]; cbn [In].
    + split.
      * intros [E|I].
        -- inversion E; subst. now left.
        -- right. split; [|now right].
           intros ->. apply Nk. apply (in_map fst) in I. exact I.
      * intros [[-> ->]|[Nx [E|I]]].
        -- now left.
        -- inversion E; subst. congruence.
        -- now right.
    + rewrite (IH Nd). split.
      * intros [E|[[-> ->]|[Nx I]]].
        -- inversion E; subst. right. split; [congruence | now left].
        -- now left.
        -- right. split; [exact Nx | now right].
      * intros [[-> ->]|[Nx [E|I]]].
        -- right. now left.
        -- now left.
        -- right. right. now split.
Qed.

Lemma NoDup_set d k v :
  NoDup (PyDict.keys d) -> NoDup (PyDict.keys (PyDict.set d k v)).
Proof.
  intros N. rewrite keys_set.
  destruct (PyDict.mem d k) eqn:M; [exact N|].
  apply NoDup_app; [exact N | repeat constructor; intros [] |].
  intros x I [<-|[]]. apply mem_In in I. congruence.
Qed.

End DictMore.

Lemma keys_filter_distinct {V : Type} (keep : string * V -> bool)
    (d : PyDict.dict V) :
  NoDup (PyDict.keys d) -> NoDup (PyDict.keys (filter keep d)).
Proof.
  unfold PyDict.keys.
  induction d as [|[k v] d IH]; cbn [map filter fst]; intros N;
    [constructor|].
  inversion N as [|? ? Nk Nd]; subst.
  destruct (keep (k, v)); cbn [map fst]; [|now apply IH].
  constructor; [|now apply IH].
  intros I. apply Nk. apply in_map_iff in I.
  destruct I as (kv & E & I). apply filter_In in I.
  apply in_map_iff. exists kv. tauto.
Qed.

Lemma words_for_pos_In {F : Type} (lexicon : Lexicon F) (t x : string) :
  In x (words_for_pos lexicon t)
  <-> exists e, In (x, e) lexicon /\ pos e = PyStr.upper t.
Proof.
  unfold words_for_pos. cbv zeta. rewrite in_map_iff. split.
  - intros ([x' e] & E & I). cbn [fst] in E. subst x'.
    apply filter_In in I. destruct I as [I Q]. cbn [snd] in Q.
    apply String.eqb_eq in Q. now exists e.
  - intros (e & I & Q). exists (x, e). split; [reflexivity|].
    apply filter_In. split; [exact I|]. cbn [snd].
    now apply String.eqb_eq.
Qed.

(** X3. Lookups do not see case.  For an ASCII word [get] and [from_word]
    give the same for the word and for its uppercase form, and for an ASCII
    tag [words_for_pos] gives the same list for the tag and for its
    lowercase form; for every word [get] gives the same for the word and for
    its lowercase form, for every tag [words_for_pos] the same for the tag
    and for its uppercase form; and a word whose lowercase form is no key
    gives no entry and the neutral field. *)
Theorem lookups_ignore_case {F : Type} `{FloatOps F}
    (lexicon : Lexicon F) (w tag : string) :
  (ascii_only w = true ->
   Lexicon_get lexicon (PyStr.upper w) = Lexicon_get lexicon w
   /\ from_word (PyStr.upper w) lexicon = from_word w lexicon)
  /\ Lexicon_get lexicon (PyStr.lower w) = Lexicon_get lexicon w
  /\ (ascii_only tag = true ->
      words_for_pos lexicon (PyStr.lower tag) = words_for_pos lexicon tag)
  /\ words_for_pos lexicon (PyStr.upper tag) = words_for_pos lexicon tag
  /\ (~ In (PyStr.lower w) (PyDict.keys lexicon) ->
      Lexicon_get lexicon w = None
      /\ from_word w lexicon = mkEmotion (fdec 0 1)).
Proof.
  unfold from_word, Lexicon_get, words_for_pos. cbv zeta.
  split; [|split; [|split; [|split]]].
  - intros A. now rewrite (lower_upper w A).
  - now rewrite lower_idem.
  - intros A. now rewrite (upper_lower tag A).
  - now rewrite upper_idem.
  - intros N. rewrite (get_None lexicon _ N). now split.
Qed.

Lemma lookups_ignore_case_witness :
  Lexicon_get (@Lexicon_init fterm _) "CAT"
  = Lexicon_get (@Lexicon_init fterm _) "Cat"
  /\ words_for_pos (@Lexicon_init fterm _) "noun"
     = words_for_pos (@Lexicon_init fterm _) "Noun"
  /\ Lexicon_get (@Lexicon_init fterm _) "Unicorn" = None.
Proof.
  destruct (lookups_ignore_case (@Lexicon_init fterm _) "Cat" "Noun")
    as (Up & _ & Lo & _ & _).
  destruct (lookups_ignore_case (@Lexicon_init fterm _) "Unicorn" "noun")
    as (_ & _ & _ & _ & Miss).
  split; [|split].
  - apply Up. reflexivity.
  - apply Lo. reflexivity.
  - apply Miss. cbn. intros D.
    repeat (destruct D as [D|D]; [discriminate D|]). exact D.
Defined.

(** X4. The last [add] of a word wins: adding a word and then adding it
    again, in any case, leaves the lexicon that the second [add] alone
    gives, the entry in the place of the first insertion. *)
Theorem lexicon_add_last_wins {F : Type} `{FloatOps F}
    (lexicon : Lexicon F) (w w' t1 t2 : string) (p1 p2 : F) :
  PyStr.lower w' = PyStr.lower w ->
  Lexicon_add (Lexicon_add lexicon w t1 p1) w' t2 p2
  = Lexicon_add lexicon w' t2 p2.
Proof.
  intros E. unfold Lexicon_add. rewrite E. apply set_set.
Qed.

Lemma lexicon_add_last_wins_witness :
  Lexicon_add (Lexicon_add (@Lexicon_init fterm _) "Cat" "verb" (FLit 1 1))
              "CAT" "noun" (FLit 2 1)
  = Lexicon_add Lexicon_init "CAT" "noun" (FLit 2 1).
Proof.
  apply (lexicon_add_last_wins Lexicon_init "Cat" "CAT" "verb" "noun").
  reflexivity.
Defined.

Lemma lexicon_init_keys {F : Type} `{FloatOps F} :
  NoDup (PyDict.keys (@Lexicon_init F _)).
Proof.
  cbn [PyDict.keys Lexicon_init map fst].
  repeat (apply NoDup_cons;
          [cbn [In]; intros D;
           repeat (destruct D as [D|D]; [discriminate D|]); exact D|]).
  apply NoDup_nil.
Qed.

(** X5. The keys of a lexicon stay distinct and in lowercase: the seed
    lexicon has distinct lowercase keys, [add] keeps both properties, and
    with distinct keys [words_for_pos] lists no word twice. *)
Theorem lexicon_keys_invariant {F : Type} `{FloatOps F}
    (lexicon : Lexicon F) (w tag t : string) (p : F) :
  (NoDup (PyDict.keys (@Lexicon_init F _))
   /\ keys_lower (@Lexicon_init F _) = true)
  /\ (NoDup (PyDict.keys lexicon) ->
      NoDup (PyDict.keys (Lexicon_add lexicon w tag p)))
  /\ (keys_lower lexicon = true ->
      keys_lower (Lexicon_add lexicon w tag p) = true)
  /\ (NoDup (PyDict.keys lexicon) -> NoDup (words_for_pos lexicon t)).
Proof.
  split; [split; [apply lexicon_init_keys | reflexivity]|].
  split; [apply NoDup_set|]. split.
  - unfold keys_lower, Lexicon_add. rewrite keys_set.
    destruct (PyDict.mem lexicon (PyStr.lower w)); [tauto|].
    intros L. rewrite forallb_app, L. cbn [forallb andb].
    now rewrite lower_idem, String.eqb_refl.
  - intros N. unfold words_for_pos. cbv zeta.
    now apply keys_filter_distinct.
Qed.

Lemma lexicon_keys_invariant_witness :
  NoDup (PyDict.keys (Lexicon_add (@Lexicon_init fterm _) "Cat" "x"
                        (FLit 0 1)))
  /\ keys_lower (Lexicon_add (@Lexicon_init fterm _) "Cat" "x" (FLit 0 1))
     = true
  /\ NoDup (words_for_pos (@Lexicon_init fterm _) "noun").
Proof.
  destruct (lexicon_keys_invariant (@Lexicon_init fterm _) "Cat" "x" "noun"
              (FLit 0 1)) as ((N0 & L0) & N & L & W).
  split; [exact (N N0) | split; [exact (L L0) | exact (W N0)]].
Defined.

(** X6. What [add] does to [words_for_pos]: a word that was no key goes to
    the end of the list of its tag and leaves every list otherwise as it
    was; and with distinct keys the words of a tag after [add] are the
    added word, if the tag is its tag, and the words of the tag before
    other than the added word. *)
Theorem words_for_pos_after_add {F : Type} `{FloatOps F}
    (lexicon : Lexicon F) (w tag t : string) (p : F) :
  (PyDict.mem lexicon (PyStr.lower w) = false ->
   words_for_pos (Lexicon_add lexicon w tag p) t
   = (words_for_pos lexicon t
      ++ if String.eqb (PyStr.upper tag) (PyStr.upper t)
         then [PyStr.lower w] else [])%list)
  /\ (NoDup (PyDict.keys lexicon) ->
      forall x,
        In x (words_for_pos (Lexicon_add lexicon w tag p) t)
        <-> (x = PyStr.lower w /\ PyStr.upper tag = PyStr.upper t)
            \/ (x <> PyStr.lower w /\ In x (words_for_pos lexicon t))).
Proof.
  split.
  - intros M. unfold Lexicon_add. rewrite (set_fresh lexicon _ _ M).
    unfold words_for_pos. cbv zeta.
    rewrite filter_app, map_app. f_equal.
    cbn [filter snd pos].
    destruct (String.eqb (PyStr.upper tag) (PyStr.upper t)); reflexivity.
  - intros N x. rewrite !words_for_pos_In. unfold Lexicon_add. split.
    + intros (e & I & Q). apply (In_set lexicon _ _ x e N) in I.
      destruct I as [[-> ->]|[Nx I]].
      * left. now split.
      * right. split; [exact Nx | now exists e].
    + intros [[-> Q]|[Nx (e & I & Q)]].
      * exists (mkLexEntry (PyStr.upper tag) p). split; [|exact Q].
        apply (In_set lexicon _ _ _ _ N). now left.
      * exists e. split; [|exact Q].
        apply (In_set lexicon _ _ _ _ N). now right.
Qed.

Lemma words_for_pos_after_add_witness :
  words_for_pos (Lexicon_add (@Lexicon_init fterm _) "Scientist" "noun"
                   (FLit 6 1)) "NOUN"
  = ["cat"; "dog"; "child"; "war"; "love"; "scientist"]
  /\ ~ In "cat" (words_for_pos
                   (Lexicon_add (@Lexicon_init fterm _) "cat" "verb"
                      (FLit 0 1)) "NOUN").
Proof.
  destruct (words_for_pos_after_add (@Lexicon_init fterm _) "Scientist"
              "noun" "NOUN" (FLit 6 1)) as (Fresh & _).
  destruct (words_for_pos_after_add (@Lexicon_init fterm _) "cat"
              "verb" "NOUN" (FLit 0 1)) as (_ & Member).
  split.
  - apply Fresh. reflexivity.
  - intros I. apply (Member lexicon_init_keys) in I.
    destruct I as [[_ Q]|[Nx _]]; [discriminate Q | now apply Nx].
Defined.

(* ------------------------------------------------------------------ *)
(** ** Grammar: rules added and looked up *)
(* ------------------------------------------------------------------ *)

(** X7. A rule that was added is found: after [add_rule g l r] the grammar
    has [l] with exactly the alternatives [r], every other symbol is as
    before, the start symbol is kept, and adding a rule for [l] again
    replaces the first. *)
Theorem add_rule_then_lookup (gr : Grammar) (l : string)
    (r r' : list (list Symbol)) :
  has (add_rule gr l r) l = true
  /\ PyDict.get (rules (add_rule gr l r)) l = Some (mkRule l r)
  /\ (forall k, k <> l ->
        has (add_rule gr l r) k = has gr k
        /\ PyDict.get (rules (add_rule gr l r)) k = PyDict.get (rules gr) k)
  /\ start (add_rule gr l r) = start gr
  /\ add_rule (add_rule gr l r) l r' = add_rule gr l r'.
Proof.
  unfold add_rule, has, PyDict.mem. cbn [rules start].
  split; [now rewrite get_set_same|].
  split; [apply get_set_same|].
  split; [|split; [reflexivity | now rewrite set_set]].
  intros k N. now rewrite (get_set_other (rules gr) l k _ N).
Qed.

Lemma add_rule_then_lookup_witness :
  has (add_rule Grammar_init "ADV" [[slot "<ADV>"]]) "NP" = true
  /\ PyDict.get (rules (add_rule Grammar_init "ADV" [[slot "<ADV>"]])) "NP"
     = PyDict.get (rules Grammar_init) "NP".
Proof.
  destruct (add_rule_then_lookup Grammar_init "ADV" [[slot "<ADV>"]] [])
    as (_ & _ & Others & _).
  destruct (Others "NP") as [Hh Hg]; [discriminate|].
  split; [rewrite Hh; reflexivity | exact Hg].
Defined.

(* ------------------------------------------------------------------ *)
(** ** Expansion: trees, tokens, depth and the stream *)
(* ------------------------------------------------------------------ *)

Section ExpandMore.
Context {F : Type} `{FloatOps F}.
Variable self : SentenceGenerator F.

Lemma expand_inv (d : nat) (symbol : string) (st st' : RandomState)
    (tree : DerivationNode) (toks : list string) :
  _expand (S d) self symbol st = Ok (tree, toks, st') ->
  (has (g self) symbol = false
   /\ tree = mkNode symbol [] (Some symbol) /\ toks = [symbol] /\ st' = st)
  \/ (exists rule alt st1 children,
        PyDict.get (rules (g self)) symbol = Some rule
        /\ random_choice (rhs rule) st = Ok (alt, st1)
        /\ expand_loop (_expand d self) self alt [] [] st1
           = Ok (children, toks, st')
        /\ tree = mkNode symbol children None).
Proof.
  cbn [_expand]. unfold expand_body.
  destruct (has (g self) symbol) eqn:Hh; cbn [negb].
  - destruct (PyDict.get (rules (g self)) symbol) as [rule|] eqn:G;
      [|discriminate].
    unfold bind.
    destruct (random_choice (rhs rule) st) as [[alt st1]|e] eqn:C;
      [|discriminate].
    destruct (expand_loop (_expand d self) self alt [] [] st1)
      as [[[ch tk] st2]|e] eqn:L; [|discriminate].
    intros E. inversion E; subst. right. now exists rule, alt, st1, ch.
  - intros E. inversion E; subst. now left.
Qed.

(** What holds of the accumulators before the loop and is kept by every
    symbol holds after it. *)
Lemma expand_loop_invariant
    (rec : string -> M (DerivationNode * list string))
    (Inv : list DerivationNode -> list string -> RandomState -> Prop) :
  (forall s st node toks st' ch tk,
     rec s st = Ok (node, toks, st') -> Inv ch tk st ->
     Inv (ch ++ [node])%list (tk ++ toks)%list st') ->
  (forall first st w st' ch tk,
     choose_for_first self first st = Ok (w, st') -> Inv ch tk st ->
     Inv (ch ++ [mkNode (atom_str first) [] (Some w)])%list
         (tk ++ [w])%list st') ->
  forall alt ch tk st ch' tk' st',
    expand_loop rec self alt ch tk st = Ok (ch', tk', st') ->
    Inv ch tk st -> Inv ch' tk' st'.
Proof.
  intros Hrec Hslot.
  induction alt as [|sym alt IH]; intros ch tk st ch' tk' st' E I.
  - inversion E; subst. exact I.
  - cbn [expand_loop] in E. unfold bind in E.
    destruct sym as [s|name attrs|obj|items].
    + destruct (rec s st) as [[[node toks] st1]|e] eqn:R; [|discriminate].
      eapply IH; [exact E|]. eapply Hrec; eauto.
    + destruct (_choose_for_pos self name st) as [[w st1]|e] eqn:C;
        [|discriminate].
      eapply IH; [exact E|]. apply (Hslot (AStr name) st); assumption.
    + discriminate.
    + destruct items as [|first items]; [discriminate|].
      destruct (choose_for_first self first st) as [[w st1]|e] eqn:C;
        [|discriminate].
      eapply IH; [exact E|]. eapply Hslot; eauto.
Qed.

Lemma expand_tree (d : nat) :
  forall symbol st tree toks st',
    _expand d self symbol st = Ok (tree, toks, st') ->
    leaf_tokens tree = toks /\ well_shaped tree = true
    /\ root_symbol tree = symbol.
Proof.
  induction d as [|d IH]; intros symbol st tree toks st' E; [discriminate|].
  apply expand_inv in E.
  destruct E as [(_ & -> & -> & _)|(rule & alt & st1 & ch & _ & _ & L & ->)].
  - now repeat split.
  - cbn [leaf_tokens well_shaped root_symbol].
    assert (I : flat_map leaf_tokens ch = toks
                /\ forallb well_shaped ch = true).
    { apply (expand_loop_invariant (_expand d self)
               (fun ch tk _ => flat_map leaf_tokens ch = tk
                               /\ forallb well_shaped ch = true)
               ) with (alt := alt) (ch := []) (tk := []) (st := st1)
                      (st' := st'); [| |exact L|now split].
      - intros s st0 node tk0 st2 ch0 tk1 R [A B].
        destruct (IH _ _ _ _ _ R) as (Y & W & _).
        rewrite flat_map_app, forallb_app, A, B. cbn [flat_map forallb].
        now rewrite Y, W, app_nil_r.
      - intros name st0 w st2 ch0 tk1 _ [A B].
        rewrite flat_map_app, forallb_app, A, B. now cbn. }
    destruct I as [A B].
    split; [exact A | split; [destruct ch; exact B | reflexivity]].
Qed.

Lemma expand_loop_mono
    (rec1 rec2 : string -> M (DerivationNode * list string)) :
  (forall s st r, rec1 s st = Ok r -> rec2 s st = Ok r) ->
  forall alt ch tk st r,
    expand_loop rec1 self alt ch tk st = Ok r ->
    expand_loop rec2 self alt ch tk st = Ok r.
Proof.
  intros Hrec. induction alt as [|sym alt IH]; intros ch tk st r E;
    [exact E|].
  cbn [expand_loop] in *. unfold bind in *.
  destruct sym as [s|name attrs|obj|items]; [| |discriminate|].
  - destruct (rec1 s st) as [[[node toks] st1]|e] eqn:R; [|discriminate].
    rewrite (Hrec _ _ _ R). now apply IH.
  - destruct (_choose_for_pos self name st) as [[w st1]|e];
      [now apply IH | discriminate].
  - destruct items as [|first items]; [discriminate|].
    destruct (choose_for_first self first st) as [[w st1]|e];
      [now apply IH | discriminate].
Qed.

Lemma expand_mono_step (d : nat) :
  forall symbol st r,
    _expand d self symbol st = Ok r -> _expand (S d) self symbol st = Ok r.
Proof.
  induction d as [|d IH]; intros symbol st r E; [discriminate|].
  change (_expand (S (S d)) self symbol st)
    with (expand_body (_expand (S d) self) self symbol st).
  change (_expand (S d) self symbol st)
    with (expand_body (_expand d self) self symbol st) in E.
  unfold expand_body in *.
  destruct (negb (has (g self) symbol)); [exact E|].
  destruct (PyDict.get (rules (g self)) symbol) as [rule|]; [|discriminate].
  unfold bind in *.
  destruct (random_choice (rhs rule) st) as [[alt st1]|e]; [|discriminate].
  destruct (expand_loop (_expand d self) self alt [] [] st1)
    as [[[ch tk] st2]|e] eqn:L; [|discriminate].
  now rewrite (expand_loop_mono (_expand d self) (_expand (S d) self)
                 IH alt [] [] st1 _ L).
Qed.

Lemma expand_mono (d d' : nat) (symbol : string) (st : RandomState)
    (r : DerivationNode * list string * RandomState) :
  d <= d' ->
  _expand d self symbol st = Ok r -> _expand d' self symbol st = Ok r.
Proof.
  induction 1 as [|d' _ IH]; intros E; [exact E|].
  apply expand_mono_step. now apply IH.
Qed.

Lemma choose_frame (name : string) (st st' : RandomState) (w : string) :
  _choose_for_pos self name st = Ok (w, st') ->
  st' = st \/ st' = advance st.
Proof.
  unfold _choose_for_pos.
  destruct (PyDict.get (functional_words self) name) as [ws|].
  { intros C. apply random_choice_In in C. now right. }
  repeat match goal with
  | |- context [if ?b then _ else _] => destruct b
  end;
  try (intros C; apply random_choice_In in C; now right).
  intros E. inversion E. now left.
Qed.

Lemma choose_first_frame (first : PyAtom) (st st' : RandomState)
    (w : string) :
  choose_for_first self first st = Ok (w, st') ->
  st' = st \/ st' = advance st.
Proof.
  destruct first as [name|n]; cbn [choose_for_first].
  - apply choose_frame.
  - intros E. inversion E. now left.
Qed.

Lemma expand_frame (d : nat) :
  forall symbol st tree toks st',
    _expand d self symbol st = Ok (tree, toks, st') ->
    stream st' = stream st /\ cursor st <= cursor st'.
Proof.
  induction d as [|d IH]; intros symbol st tree toks st' E; [discriminate|].
  apply expand_inv in E.
  destruct E as [(_ & _ & _ & ->)|(rule & alt & st1 & ch & _ & C & L & _)].
  - now split.
  - apply random_choice_In in C. destruct C as [_ ->].
    apply (expand_loop_invariant (_expand d self)
             (fun _ _ s => stream s = stream st /\ cursor st <= cursor s))
      with (alt := alt) (ch := []) (tk := []) (st := advance st)
           (ch' := ch) (tk' := toks); [| |exact L|].
    + intros s st0 node tk0 st2 ch0 tk1 R [A B].
      destruct (IH _ _ _ _ _ R) as [A' B']. split; [congruence | lia].
    + intros name st0 w st2 ch0 tk1 Cw [A B].
      destruct (choose_first_frame _ _ _ _ Cw) as [->| ->];
        [now split | cbn; split; [exact A | lia]].
    + cbn. split; [reflexivity | lia].
Qed.

End ExpandMore.

(** X8. The tree and the tokens of an expansion agree: the tokens are the
    leaves of the tree from left to right, the root carries the symbol that
    was expanded, and a node that carries a token has no children. *)
Theorem expand_tokens_are_leaves {F : Type} `{FloatOps F}
    (self : SentenceGenerator F) (depth : nat) (symbol : string)
    (st st' : RandomState) (tree : DerivationNode) (toks : list string) :
  _expand depth self symbol st = Ok (tree, toks, st') ->
  leaf_tokens tree = toks
  /\ root_symbol tree = symbol
  /\ well_shaped tree = true.
Proof.
  intros E. destruct (expand_tree self depth _ _ _ _ _ E) as (A & B & C).
  now repeat split.
Qed.

Lemma expand_tokens_are_leaves_witness :
  leaf_tokens
    (mkNode "IMP" [mkNode "V" [mkNode "<VERB>" [] (Some "hate")] None] None)
  = ["hate"]
  /\ root_symbol
       (mkNode "IMP" [mkNode "V" [mkNode "<VERB>" [] (Some "hate")] None]
          None)
     = "IMP"
  /\ well_shaped
       (mkNode "IMP" [mkNode "V" [mkNode "<VERB>" [] (Some "hate")] None]
          None)
     = true.
Proof.
  apply (expand_tokens_are_leaves seed_generator 4 "IMP" (counting_from 1)
           (mkRandom (fun k => k + 1) 3)).
  reflexivity.
Defined.

(** X9. More room for recursion never changes a result: an expansion that
    returns within [d] nested calls returns the same tree, tokens and stream
    position within any larger number, and so does [generate]. *)
Theorem more_depth_same_result {F : Type} `{FloatOps F}
    (self : SentenceGenerator F) (d d' : nat) (symbol : string)
    (st : RandomState) :
  d <= d' ->
  (forall r, _expand d self symbol st = Ok r ->
             _expand d' self symbol st = Ok r)
  /\ (forall r, generate d self st = Ok r -> generate d' self st = Ok r).
Proof.
  intros L. split.
  - intros r. now apply expand_mono.
  - intros [[[text tree] field] st'] E.
    apply generate_inv in E. destruct E as (toks & E & Lin & ->).
    apply (expand_mono self d d' _ _ _ L) in E.
    now apply generate_intro.
Qed.

Lemma more_depth_same_result_witness :
  text_of (generate 1000 seed_generator (counting_from 3))
  = Some "Child see happy.".
Proof.
  destruct (more_depth_same_result seed_generator 5 1000 "S"
              (counting_from 3)) as [_ G]; [lia|].
  rewrite (G ("Child see happy.",
              mkNode "S"
                 [mkNode "CLAUSE"
                    [mkNode "NP"
                       [mkNode "N" [mkNode "<NOUN>" [] (Some "child")] None]
                       None;
                     mkNode "VP"
                       [mkNode "V" [mkNode "<VERB>" [] (Some "see")] None;
                        mkNode "ADJ" [mkNode "<ADJ>" [] (Some "happy")] None]
                       None]
                    None]
                 None,
              mkEmotion
                 (FTanh (FAdd (FTanh (FAdd (FTanh (FAdd (FLit 0 1) (FLit 4 1)))
                                           (FLit 0 1)))
                              (FLit 8 1))),
              mkRandom (fun k => k + 3) 10));
    reflexivity.
Defined.

(** X10. Generation reads the shared stream forward and never reseeds it:
    after an expansion or a [generate] that returns, the raw sequence is
    the one before and the position has not moved back. *)
Theorem generation_keeps_stream {F : Type} `{FloatOps F}
    (self : SentenceGenerator F) (depth : nat) (symbol : string)
    (st : RandomState) :
  (forall tree toks st',
     _expand depth self symbol st = Ok (tree, toks, st') ->
     stream st' = stream st /\ cursor st <= cursor st')
  /\ (forall text tree field st',
        generate depth self st = Ok (text, tree, field, st') ->
        stream st' = stream st /\ cursor st <= cursor st').
Proof.
  split.
  - intros tree toks st'. apply expand_frame.
  - intros text tree field st' E.
    apply generate_inv in E. destruct E as (toks & E & _).
    now apply expand_frame in E.
Qed.

Lemma generation_keeps_stream_witness :
  stream (mkRandom (fun k => k + 1) 3) = stream (counting_from 1)
  /\ cursor (counting_from 1) <= cursor (mkRandom (fun k => k + 1) 3).
Proof.
  destruct (generation_keeps_stream seed_generator 4 "IMP"
              (counting_from 1)) as [E _].
  apply (E (mkNode "IMP"
              [mkNode "V" [mkNode "<VERB>" [] (Some "hate")] None] None)
           ["hate"]).
  reflexivity.
Defined.

(** X11. [generate] is a function of the leaves of the tree it returns:
    the text is the linearisation of the post-processed leaf tokens, the
    valence is their fold, and the root of the tree is the start symbol. *)
Theorem generate_reads_the_leaves {F : Type} `{FloatOps F}
    (self : SentenceGenerator F) (depth : nat) (st st' : RandomState)
    (text : string) (tree : DerivationNode) (field : EmotionField F) :
  generate depth self st = Ok (text, tree, field, st') ->
  _linearize (_postprocess (leaf_tokens tree)) = Ok text
  /\ valence field
     = left_fold (map (polarity_of (lex self))
                      (_postprocess (leaf_tokens tree)))
  /\ root_symbol tree = start (g self).
Proof.
  intros E. apply generate_inv in E. destruct E as (toks & E & Lin & ->).
  destruct (expand_tree self depth _ _ _ _ _ E) as (-> & _ & R).
  split; [exact Lin|]. split; [apply fold_valence_spec | exact R].
Qed.

Lemma generate_reads_the_leaves_witness :
  _linearize
    (_postprocess
       (leaf_tokens
          (mkNode "S"
             [mkNode "IMP"
                [mkNode "V" [mkNode "<VERB>" [] (Some "like")] None] None]
             None)))
  = Ok "Like.".
Proof.
  apply (generate_reads_the_leaves seed_generator 5
           (mkRandom (fun k => 3 * k + 2) 0)
           (mkRandom (fun k => 3 * k + 2) 4) "Like."
           (mkNode "S"
              [mkNode "IMP"
                 [mkNode "V" [mkNode "<VERB>" [] (Some "like")] None] None]
              None)
           (mkEmotion (FTanh (FAdd (FLit 0 1) (FLit 6 1))))).
  reflexivity.
Defined.

(** X12. Left recursion is not guarded: when every alternative of a rule
    starts with the rule's own symbol, expanding that symbol returns at no
    depth; it ends in [RecursionError]. *)
Theorem left_recursion_never_returns {F : Type} `{FloatOps F}
    (self : SentenceGenerator F) (X : string) (rule : Rule) :
  PyDict.get (rules (g self)) X = Some rule ->
  rhs rule <> [] ->
  (forall alt, In alt (rhs rule) -> exists rest, alt = SymStr X :: rest) ->
  forall depth st, _expand depth self X st = Raise RecursionError.
Proof.
  intros G N A depth.
  induction depth as [|d IH]; intros st; [reflexivity|].
  destruct (random_choice_total (rhs rule) st N) as (alt & C & I).
  rewrite (expand_step d self X rule alt st (advance st) G C).
  destruct (A alt I) as (rest & ->).
  cbn [expand_loop]. unfold bind. now rewrite IH.
Qed.

Lemma left_recursion_never_returns_witness :
  _expand 200 (generator_of grammar_left_recursive (@Lexicon_init fterm _))
          "NP" counting
  = Raise RecursionError.
Proof.
  apply (left_recursion_never_returns
           (generator_of grammar_left_recursive (@Lexicon_init fterm _))
           "NP" (mkRule "NP" [nt ["NP"; "PP"]; nt ["NP"; "N"]])).
  - reflexivity.
  - discriminate.
  - intros alt [<-|[<-|[]]]; eexists; reflexivity.
Defined.

(* ------------------------------------------------------------------ *)
(** ** Linearisation and post-processing: edges *)
(* ------------------------------------------------------------------ *)

Lemma join_empty (tokens : list string) :
  PyStr.join " " tokens = EmptyString ->
  tokens = [] \/ tokens = [EmptyString].
Proof.
  destruct tokens as [|x [|y rest]]; cbn [PyStr.join].
  - now left.
  - intros ->. now right.
  - destruct x; discriminate.
Qed.

Lemma replace_nonempty (c a n : ascii) (r p n' : string) :
  exists c' b,
    PyStr.replace (String c r) (String a p) (String n n') = String c' b.
Proof.
  unfold PyStr.replace. cbn [PyStr.replace_from].
  destruct (PyStr.startswith (String c r) (String a p));
    cbn [append]; eexists; eexists; reflexivity.
Qed.

Lemma punctuated_last (s : string) :
  exists c,
    PyStr.last_char
      (if negb (PyStr.endswith_any s ["."; "?"; "!"]) then s ++ "." else s)
    = Some c
    /\ In c ["."; "?"; "!"]%char.
Proof.
  destruct (PyStr.endswith_any s ["."; "?"; "!"]) eqn:E; cbn [negb].
  - unfold PyStr.endswith_any in E. cbn [existsb] in E.
    apply orb_prop in E. destruct E as [E|E];
      [|apply orb_prop in E; destruct E as [E|E];
        [|apply orb_prop in E; destruct E as [E|E]; [|discriminate E]]];
      apply endswith_last in E; eexists; (split; [exact E|]);
      cbn [In]; tauto.
  - exists "."%char. split; [apply last_char_snoc | cbn [In]; tauto].
Qed.

Lemma linearize_cons (w : string) (rest : list string) :
  (w = EmptyString /\ rest = []
   /\ _linearize (w :: rest) = Raise (IndexError "string index out of range"))
  \/ (exists c b l,
        _linearize (w :: rest) = Ok (String c b)
        /\ PyStr.last_char (String c b) = Some l
        /\ In l ["."; "?"; "!"]%char).
Proof.
  unfold _linearize.
  destruct (PyStr.join " " (w :: rest)) as [|c0 r0] eqn:J.
  - apply join_empty in J. destruct J as [J|J]; [discriminate|].
    inversion J; subst. left. now repeat split.
  - right.
    destruct (replace_nonempty c0 " " "?" r0 "?" EmptyString)
      as (c1 & r1 & ->).
    destruct (replace_nonempty c1 " " "," r1 "," EmptyString)
      as (c2 & r2 & ->).
    cbv zeta.
    destruct (punctuated_last (String (PyStr.upper_char c2) r2))
      as (l & E & I).
    destruct (negb (PyStr.endswith_any (String (PyStr.upper_char c2) r2)
                      ["."; "?"; "!"])).
    + exists (PyStr.upper_char c2), (r2 ++ "."), l. now repeat split.
    + exists (PyStr.upper_char c2), r2, l. now repeat split.
Qed.

Lemma linearize_raises (tokens : list string) (e : exn) :
  _linearize tokens = Raise e ->
  tokens = [EmptyString] /\ e = IndexError "string index out of range".
Proof.
  destruct tokens as [|w rest]; [discriminate|].
  destruct (linearize_cons w rest)
    as [(-> & -> & E)|(c & b & l & E & _)]; rewrite E; [|discriminate].
  intros Q. inversion Q. now split.
Qed.

(** X13. [_linearize] at its edges: the empty token list gives the empty
    text and nothing else does; the list that holds just the empty token
    raises [IndexError] and nothing else raises; every other list gives a
    text whose last character is one of [.], [?], [!]. *)
Theorem linearize_edges (tokens : list string) :
  (_linearize tokens = Ok EmptyString <-> tokens = [])
  /\ ((exists e, _linearize tokens = Raise e) <-> tokens = [EmptyString])
  /\ (tokens = [EmptyString] ->
      _linearize tokens = Raise (IndexError "string index out of range"))
  /\ (forall text,
        _linearize tokens = Ok text -> tokens <> [] ->
        exists l, PyStr.last_char text = Some l
                  /\ In l ["."; "?"; "!"]%char).
Proof.
  destruct tokens as [|w rest].
  - split; [now split|]. split; [|split].
    + split; [intros [e E]; discriminate E | discriminate].
    + discriminate.
    + intros text _ N. congruence.
  - destruct (linearize_cons w rest)
      as [(-> & -> & E)|(c & b & l & E & La & I)]; rewrite E.
    + split; [split; discriminate|]. split; [|split].
      * split; [reflexivity | intros _; now eexists].
      * reflexivity.
      * discriminate.
    + split; [split; discriminate|]. split; [|split].
      * split; [intros [e E']; discriminate E'|].
        intros Q. inversion Q; subst. discriminate E.
      * intros Q. inversion Q; subst. discriminate E.
      * intros text T _. inversion T; subst. now exists l.
Qed.

Lemma linearize_edges_witness :
  _linearize [EmptyString] = Raise (IndexError "string index out of range")
  /\ exists l, PyStr.last_char "Who see the cat?" = Some l
               /\ In l ["."; "?"; "!"]%char.
Proof.
  destruct (linearize_edges [EmptyString]) as (_ & _ & Bad & _).
  destruct (linearize_edges ["who"; "see"; "the"; "cat"; "?"])
    as (_ & _ & _ & Good).
  split; [apply Bad; reflexivity|].
  apply Good; [reflexivity | discriminate].
Defined.

Lemma article_not_an (tokens : list string) (i : nat) :
  fix_article tokens i "an" = "an".
Proof. apply fix_article_other. intros [E|E]; discriminate E. Qed.

Lemma postprocess_next_none (tokens : list string) (i : nat) :
  nth_error tokens i = None -> nth_error (_postprocess tokens) i = None.
Proof.
  intros N. apply nth_error_None. rewrite postprocess_length.
  now apply nth_error_None.
Qed.

Lemma fix_article_stable (tokens : list string) (i : nat) (tok : string) :
  nth_error tokens i = Some tok ->
  fix_article (_postprocess tokens) i (fix_article tokens i tok)
  = fix_article tokens i tok.
Proof.
  intros E.
  destruct (String.eqb (PyStr.lower tok) "a") eqn:A.
  2:{ assert (N : ~ is_article_a tok)
        by (intros Q; apply lower_is_a in Q; congruence).
      rewrite (fix_article_other tokens i tok N).
      now apply fix_article_other. }
  apply lower_is_a in A.
  destruct (nth_error tokens (i + 1)) as [nxt|] eqn:En.
  2:{ rewrite (fix_article_last tokens i tok En).
      apply fix_article_last. now apply postprocess_next_none. }
  rewrite (fix_article_next tokens i tok nxt A En).
  pose proof (postprocess_nth tokens (i + 1) nxt En) as En'.
  assert (Keep : (forall c r, PyStr.lower nxt = String c r ->
                              is_vowel c = false) ->
                 fix_article (_postprocess tokens) i tok
                 = match PyStr.lower nxt with
                   | EmptyString => tok
                   | String c _ => if is_vowel c then "an" else tok
                   end).
  { intros NV.
    rewrite (fix_article_other tokens (i + 1) nxt) in En'.
    - exact (fix_article_next _ i tok nxt A En').
    - intros Q. apply lower_is_a in Q. apply String.eqb_eq in Q.
      specialize (NV _ _ Q). discriminate NV. }
  destruct (PyStr.lower nxt) as [|c r] eqn:Ln.
  - rewrite Keep; [reflexivity | discriminate].
  - destruct (is_vowel c) eqn:V.
    + apply article_not_an.
    + rewrite Keep; [reflexivity|].
      intros c' r' Q. inversion Q; subst. exact V.
Qed.

(** X14. Post-processing is idempotent: a second pass changes nothing. *)
Theorem postprocess_idempotent (tokens : list string) :
  _postprocess (_postprocess tokens) = _postprocess tokens.
Proof.
  apply nth_error_ext. intros i.
  destruct (nth_error tokens i) as [tok|] eqn:E.
  - pose proof (postprocess_nth tokens i tok E) as E1.
    rewrite (postprocess_nth _ i _ E1), E1.
    f_equal. now apply fix_article_stable.
  - pose proof (postprocess_next_none tokens i E) as E1.
    now rewrite (postprocess_next_none _ i E1), E1.
Qed.

(* ------------------------------------------------------------------ *)
(** ** Generation: which exceptions can come out *)
(* ------------------------------------------------------------------ *)

Lemma postprocess_single_empty (toks : list string) :
  _postprocess toks = [EmptyString] -> toks = [EmptyString].
Proof.
  intros E. pose proof (postprocess_length toks) as L. rewrite E in L.
  destruct toks as [|w [|x r]]; try discriminate L.
  pose proof (postprocess_nth [w] 0 w eq_refl) as N.
  rewrite E in N. rewrite (fix_article_last [w] 0 w eq_refl) in N.
  inversion N. reflexivity.
Qed.

(** X15. The exceptions of [generate] on a rule set of well-typed symbols
    in which every rule has an alternative: [RecursionError], or the
    [IndexError] of [_linearize], and this one only when the expansion gave
    the single empty token. *)
Theorem generate_raises_only {F : Type} `{FloatOps F}
    (grammar : Grammar) (lexicon : Lexicon F) (depth : nat)
    (st : RandomState) (e : exn) :
  well_formed grammar = true ->
  has_alternatives grammar = true ->
  generate depth (generator_of grammar lexicon) st = Raise e ->
  e = RecursionError
  \/ (e = IndexError "string index out of range"
      /\ exists tree st',
           _expand depth (generator_of grammar lexicon) (start grammar) st
           = Ok (tree, [EmptyString], st')).
Proof.
  intros T A E. unfold generate, bind, lift in E.
  change (start (g (generator_of grammar lexicon))) with (start grammar) in E.
  destruct (_expand depth (generator_of grammar lexicon) (start grammar) st)
    as [[[tree toks] st']|e'] eqn:X.
  - destruct (_linearize (_postprocess toks)) as [text|e''] eqn:L;
      [discriminate|].
    inversion E; subst. right.
    apply linearize_raises in L. destruct L as [Q ->].
    split; [reflexivity|].
    apply postprocess_single_empty in Q. subst toks. now exists tree, st'.
  - inversion E; subst. left.
    apply (expand_raises grammar lexicon (fun e => e = RecursionError))
      in X; [exact X | reflexivity | | exact T].
    intros l r e0 st0 I C. apply random_choice_raises in C.
    destruct C as [C _]. exfalso.
    unfold has_alternatives in A. rewrite forallb_forall in A.
    specialize (A _ I). cbn [snd] in A. rewrite C in A. discriminate.
Qed.

Lemma generate_raises_only_witness :
  generate 5 (generator_of Grammar_init lexicon_with_empty_verb)
           (draws [2; 1; 0; 5])
  = Raise (IndexError "string index out of range")
  /\ (IndexError "string index out of range" = RecursionError
      \/ (IndexError "string index out of range"
          = IndexError "string index out of range"
          /\ exists tree st',
               _expand 5 (generator_of Grammar_init lexicon_with_empty_verb)
                       (start Grammar_init) (draws [2; 1; 0; 5])
               = Ok (tree, [EmptyString], st'))).
Proof.
  split; [reflexivity|].
  apply (generate_raises_only Grammar_init lexicon_with_empty_verb 5
           (draws [2; 1; 0; 5])); reflexivity.
Defined.

(* ------------------------------------------------------------------ *)
(** ** Printing a tree *)
(* ------------------------------------------------------------------ *)

Lemma DerivationNode_induction (P : DerivationNode -> Prop) :
  (forall symbol children token,
     Forall P children -> P (mkNode symbol children token)) ->
  forall n, P n.
Proof.
  intros Step. fix IH 1. intros [symbol children token].
  apply Step. induction children as [|c children IHc]; constructor;
    [apply IH | exact IHc].
Qed.

Lemma count_char_app (c : ascii) (a b : string) :
  count_char c (a ++ b) = count_char c a + count_char c b.
Proof.
  induction a as [|x a IH]; cbn [append count_char]; [reflexivity|].
  rewrite IH. lia.
Qed.

Lemma count_lines_pad (n : nat) :
  count_lines (PyStr.repeat_str "  " n) = 0.
Proof.
  unfold count_lines. induction n as [|n IH]; [reflexivity|].
  cbn [PyStr.repeat_str]. rewrite count_char_app, IH. reflexivity.
Qed.

Lemma count_lines_fold (f : DerivationNode -> string)
    (children : list DerivationNode) (init : string) :
  count_lines (fold_left (fun out ch => out ++ f ch) children init)
  = count_lines init + list_sum (map (fun ch => count_lines (f ch)) children).
Proof.
  unfold count_lines. revert init.
  induction children as [|c children IH]; intros init;
    cbn [fold_left map list_sum fold_right]; [lia|].
  rewrite IH, count_char_app. unfold list_sum. lia.
Qed.

(** X16. [pretty] prints one line per node: when no symbol and no token
    holds a line break, the number of line breaks in the text is the number
    of nodes printed, at any indentation. *)
Theorem pretty_one_line_per_node (tree : DerivationNode) (indent : nat) :
  line_free tree = true ->
  count_lines (pretty tree indent) = printed_nodes tree.
Proof.
  revert indent.
  induction tree as [symbol children token IH] using DerivationNode_induction.
  intros indent LF. destruct token as [t|].
  - cbn [pretty printed_nodes]. cbn [line_free] in LF.
    apply andb_prop in LF. destruct LF as [Ls Lt].
    apply Nat.eqb_eq in Ls. apply Nat.eqb_eq in Lt.
    unfold count_lines in *. rewrite !count_char_app.
    fold (count_lines (PyStr.repeat_str "  " indent)).
    rewrite count_lines_pad, Ls, Lt. reflexivity.
  - cbn [pretty printed_nodes]. cbn [line_free] in LF.
    apply andb_prop in LF. destruct LF as [Ls Lc].
    apply Nat.eqb_eq in Ls.
    rewrite count_lines_fold.
    assert (Sum : list_sum
                    (map (fun ch => count_lines (pretty ch (indent + 1)))
                         children)
                  = list_sum (map printed_nodes children)).
    { clear Ls. induction children as [|c children IHc];
        cbn [map list_sum fold_right]; [reflexivity|].
      cbn [forallb] in Lc. apply andb_prop in Lc. destruct Lc as [Lc1 Lc2].
      inversion IH as [|? ? Pc Pcs]; subst.
      rewrite (Pc (indent + 1) Lc1). f_equal. now apply IHc. }
    rewrite Sum.
    unfold count_lines at 1. rewrite !count_char_app.
    fold (count_lines (PyStr.repeat_str "  " indent)).
    fold (count_lines symbol).
    rewrite count_lines_pad, Ls. reflexivity.
Qed.

Lemma pretty_one_line_per_node_witness :
  count_lines
    (pretty
       (mkNode "IMP" [mkNode "V" [mkNode "<VERB>" [] (Some "hate")] None]
          None) 0)
  = 3.
Proof.
  apply (pretty_one_line_per_node
           (mkNode "IMP" [mkNode "V" [mkNode "<VERB>" [] (Some "hate")] None]
              None) 0).
  reflexivity.
Defined.

(* ------------------------------------------------------------------ *)
(** ** Valence over the reals: bounds and symmetry *)
(* ------------------------------------------------------------------ *)

Lemma tanh_opp (x : R) : tanh (- x) = (- tanh x)%R.
Proof.
  unfold tanh, sinh, cosh. rewrite Ropp_involutive.
  pose proof (exp_pos x). pose proof (exp_pos (- x)).
  field. lra.
Qed.

Lemma fold_tanh_strict (ps : list R) (v : R) :
  ps <> [] ->
  (-1 < fold_left (fun v p => tanh (v + p)) ps v < 1)%R.
Proof.
  revert v. induction ps as [|p ps IH]; intros v N; [congruence|].
  cbn [fold_left]. destruct ps as [|q ps].
  - cbn [fold_left]. apply tanh_bounds.
  - apply IH. discriminate.
Qed.

Lemma fold_tanh_opp (ps qs : list R) (v : R) :
  Forall2 (fun p q => q = (- p)%R) ps qs ->
  fold_left (fun v p => tanh (v + p)) qs (- v)%R
  = (- fold_left (fun v p => tanh (v + p)) ps v)%R.
Proof.
  intros A. revert v. induction A as [|p q ps qs E A IH]; intros v;
    cbn [fold_left]; [reflexivity|].
  subst q. rewrite <- IH. f_equal. rewrite <- tanh_opp. f_equal. lra.
Qed.

(** X17. Over the reals [combine] is commutative and lands in [-1, 1]
    whatever the two valences are; so the valence folded over a non-empty
    token list is in [-1, 1] for any polarities in the lexicon, also ones
    outside [-1, 1], and for any starting field, and over the empty list it
    is the starting field.  (The bounds are closed: the tanh of floats
    reaches 1.0 and -1.0.) *)
Theorem real_valence_is_bounded (lexicon : Lexicon R)
    (tokens : list string) (a b : EmotionField R) :
  combine a b = combine b a
  /\ (-1 <= valence (combine a b) <= 1)%R
  /\ (tokens <> [] ->
      (-1 <= valence (fold_valence lexicon tokens a) <= 1)%R)
  /\ fold_valence lexicon [] a = a.
Proof.
  split; [|split; [|split]].
  - unfold combine. cbn [ftanh fadd RealFloat valence].
    now rewrite Rplus_comm.
  - pose proof (tanh_bounds (valence a + valence b)) as B.
    cbn [combine valence ftanh fadd RealFloat]. lra.
  - intros N. rewrite fold_valence_spec.
    pose proof (fold_tanh_strict (map (polarity_of lexicon) tokens)
                  (valence a)) as B.
    cbn [ftanh fadd RealFloat].
    assert (M : map (polarity_of lexicon) tokens <> [])
      by (destruct tokens; [congruence | discriminate]).
    specialize (B M). lra.
  - reflexivity.
Qed.

Lemma real_valence_is_bounded_witness :
  (-1 <= valence
           (fold_valence [("joy", mkLexEntry "NOUN" 50%R)] ["joy"; "joy"]
              (mkEmotion 7%R)) <= 1)%R.
Proof.
  destruct (real_valence_is_bounded [("joy", mkLexEntry "NOUN" 50%R)]
              ["joy"; "joy"] (mkEmotion 7%R) (mkEmotion 0%R))
    as (_ & _ & B & _).
  apply B. discriminate.
Defined.

(** X18. Over the reals the valence is odd in the polarities: two lexicons
    that give every token opposite polarities give every token list
    opposite valences. *)
Theorem real_valence_is_odd (lexicon opposite : Lexicon R)
    (tokens : list string) :
  (forall tok, polarity_of opposite tok = (- polarity_of lexicon tok)%R) ->
  valence (fold_valence opposite tokens (mkEmotion (fdec 0 1)))
  = (- valence (fold_valence lexicon tokens (mkEmotion (fdec 0 1))))%R.
Proof.
  intros O. rewrite !fold_valence_spec. cbn [valence].
  assert (Z0 : (fdec 0 1 : R) = (- fdec 0 1)%R).
  { cbn [fdec RealFloat]. unfold Rdiv. rewrite Rmult_0_l. lra. }
  rewrite Z0 at 1.
  apply (fold_tanh_opp (map (polarity_of lexicon) tokens)).
  induction tokens as [|t tokens IH]; cbn [map]; constructor;
    [apply O | exact IH].
Qed.

Lemma real_valence_is_odd_witness :
  valence (fold_valence [("war", mkLexEntry "NOUN" (-1)%R)] ["war"; "peace"]
             (mkEmotion (fdec 0 1)))
  = (- valence (fold_valence [("war", mkLexEntry "NOUN" 1%R)]
                  ["war"; "peace"] (mkEmotion (fdec 0 1))))%R.
Proof.
  apply (real_valence_is_odd [("war", mkLexEntry "NOUN" 1%R)]
           [("war", mkLexEntry "NOUN" (-1)%R)] ["war"; "peace"]).
  intros tok. unfold polarity_of. cbn [PyDict.get].
  destruct (String.eqb "war" (PyStr.lower tok)); cbn [polarity].
  - lra.
  - cbn [fdec RealFloat]. unfold Rdiv. rewrite Rmult_0_l. lra.
Defined.

(* ------------------------------------------------------------------ *)
(** ** The seed grammar: how long a sentence can be *)
(* ------------------------------------------------------------------ *)

Create HintDb seed_sizes.

Section SeedSizes.
Context {F : Type} `{FloatOps F}.
Variable lexicon : Lexicon F.

Let self : SentenceGenerator F := generator_of Grammar_init lexicon.

Lemma loop_sized_nil (rec : string -> M (DerivationNode * list string)) :
  loop_sized rec self [] 0 0.
Proof.
  intros ch tk st. exists ch, [], st. rewrite app_nil_r.
  split; [reflexivity | cbn; lia].
Qed.

Lemma loop_sized_cons (rec : string -> M (DerivationNode * list string))
    (s : string) (rest : list Symbol) (lo1 hi1 lo2 hi2 : nat) :
  (forall st, sized lo1 hi1 (rec s st)) ->
  loop_sized rec self rest lo2 hi2 ->
  loop_sized rec self (SymStr s :: rest) (lo1 + lo2) (hi1 + hi2).
Proof.
  intros A B ch tk st.
  destruct (A st) as (node & toks & st1 & E & L1).
  destruct (B (ch ++ [node])%list (tk ++ toks)%list st1)
    as (ch' & tk' & st' & E' & L2).
  exists ch', (toks ++ tk')%list, st'.
  cbn [expand_loop]. unfold bind. rewrite E, E'.
  split; [now rewrite app_assoc | rewrite List.length_app; lia].
Qed.

Lemma expand_sized (d : nat) (X : string) (rule : Rule) (lo hi : nat) :
  PyDict.get (rules Grammar_init) X = Some rule ->
  rhs rule <> [] ->
  (forall alt, In alt (rhs rule) ->
     exists lo' hi',
       loop_sized (_expand d self) self alt lo' hi'
       /\ lo <= lo' /\ hi' <= hi) ->
  forall st, sized lo hi (_expand (S d) self X st).
Proof.
  intros G N A st.
  destruct (random_choice_total (rhs rule) st N) as (alt & C & I).
  rewrite (expand_step d self X rule alt st (advance st) G C).
  destruct (A alt I) as (lo' & hi' & L & Llo & Lhi).
  destruct (L [] [] (advance st)) as (ch & tk & st' & E & B).
  rewrite E. exists (mkNode X ch None), tk, st'.
  split; [reflexivity | lia].
Qed.

Lemma preterminal_sized (d : nat) (X name : string) :
  PyDict.get (rules Grammar_init) X = Some (mkRule X [[slot name]]) ->
  forall st, sized 1 1 (_expand (S d) self X st).
Proof.
  intros G st.
  rewrite (expand_step d self X (mkRule X [[slot name]]) [slot name]
             st (advance st) G (random_choice_one _ st)).
  destruct (choose_returns Grammar_init lexicon name (advance st))
    as (w & st' & E).
  unfold slot. cbn [expand_loop]. unfold bind. fold self in E. rewrite E.
  cbn [expand_loop ret app].
  exists (mkNode X [mkNode name [] (Some w)] None), [w], st'.
  split; [reflexivity | cbn; lia].
Qed.

Lemma N_sized (d : nat) (st : RandomState) :
  sized 1 1 (_expand (S d) self "N" st).
Proof. now apply (preterminal_sized d "N" "<NOUN>"). Qed.

Lemma V_sized (d : nat) (st : RandomState) :
  sized 1 1 (_expand (S d) self "V" st).
Proof. now apply (preterminal_sized d "V" "<VERB>"). Qed.

Lemma DET_sized (d : nat) (st : RandomState) :
  sized 1 1 (_expand (S d) self "DET" st).
Proof. now apply (preterminal_sized d "DET" "<DET>"). Qed.

Lemma ADJ_sized (d : nat) (st : RandomState) :
  sized 1 1 (_expand (S d) self "ADJ" st).
Proof. now apply (preterminal_sized d "ADJ" "<ADJ>"). Qed.

Lemma P_sized (d : nat) (st : RandomState) :
  sized 1 1 (_expand (S d) self "P" st).
Proof. now apply (preterminal_sized d "P" "<P>"). Qed.

Hint Resolve N_sized V_sized DET_sized ADJ_sized P_sized : seed_sizes.

(** The alternatives of a rule, one by one: the bounds of the symbols add
    up. *)
Ltac sum_alternatives :=
  intros alt I; cbn [rhs nt map] in I;
  repeat (destruct I as [I|I];
          [subst alt; eexists; eexists;
           split;
           [repeat (eapply loop_sized_cons;
                    [intros st0; auto with seed_sizes|]);
            apply loop_sized_nil
           |cbn; lia]
          |]);
  contradiction.

Lemma NP_sized (d : nat) (st : RandomState) :
  sized 1 3 (_expand (S (S d)) self "NP" st).
Proof.
  apply (expand_sized (S d) "NP"
           (mkRule "NP" [nt ["DET"; "N"]; nt ["DET"; "ADJ"; "N"]; nt ["N"]]));
    [reflexivity | discriminate | sum_alternatives].
Qed.

Hint Resolve NP_sized : seed_sizes.

Lemma VP_sized (d : nat) (st : RandomState) :
  sized 1 4 (_expand (S (S (S d))) self "VP" st).
Proof.
  apply (expand_sized (S (S d)) "VP"
           (mkRule "VP" [nt ["V"; "NP"]; nt ["V"]; nt ["V"; "ADJ"]]));
    [reflexivity | discriminate | sum_alternatives].
Qed.

Lemma PP_sized (d : nat) (st : RandomState) :
  sized 2 4 (_expand (S (S (S d))) self "PP" st).
Proof.
  apply (expand_sized (S (S d)) "PP" (mkRule "PP" [nt ["P"; "NP"]]));
    [reflexivity | discriminate | sum_alternatives].
Qed.

Lemma IMP_sized (d : nat) (st : RandomState) :
  sized 1 4 (_expand (S (S (S d))) self "IMP" st).
Proof.
  apply (expand_sized (S (S d)) "IMP"
           (mkRule "IMP" [nt ["V"; "NP"]; nt ["V"]]));
    [reflexivity | discriminate | sum_alternatives].
Qed.

Hint Resolve VP_sized PP_sized IMP_sized : seed_sizes.

Lemma CLAUSE_sized (d : nat) (st : RandomState) :
  sized 2 11 (_expand (S (S (S (S d)))) self "CLAUSE" st).
Proof.
  apply (expand_sized (S (S (S d))) "CLAUSE"
           (mkRule "CLAUSE" [nt ["NP"; "VP"]; nt ["NP"; "VP"; "PP"]]));
    [reflexivity | discriminate | sum_alternatives].
Qed.

Lemma S_sized (d : nat) (st : RandomState) :
  ~ picks_question st ->
  sized 1 11 (_expand (S (S (S (S (S d))))) self "S" st).
Proof.
  intros NQ.
  assert (C : exists X,
             (X = "CLAUSE" \/ X = "IMP")
             /\ random_choice [nt ["CLAUSE"]; nt ["Q"]; nt ["IMP"]] st
                = Ok (nt [X], advance st)).
  { unfold random_choice. cbn [length].
    pose proof (randbelow_lt 3 st ltac:(lia)) as B.
    unfold picks_question in NQ.
    destruct (randbelow 3 st) as [|[|[|n]]] eqn:R.
    - exists "CLAUSE". split; [now left | reflexivity].
    - congruence.
    - exists "IMP". split; [now right | reflexivity].
    - lia. }
  destruct C as (X & HX & C).
  rewrite (expand_step _ self "S"
             (mkRule "S" [nt ["CLAUSE"]; nt ["Q"]; nt ["IMP"]]) (nt [X])
             st (advance st) eq_refl C).
  assert (B : forall st0,
             sized 1 11 (_expand (S (S (S (S d)))) self X st0)).
  { intros st0. destruct HX as [->| ->].
    - destruct (CLAUSE_sized d st0) as (n & t & s & E & L).
      exists n, t, s. split; [exact E | lia].
    - destruct (IMP_sized (S d) st0) as (n & t & s & E & L).
      exists n, t, s. split; [exact E | lia]. }
  destruct (loop_sized_cons (_expand (S (S (S (S d)))) self) X [] 1 11 0 0
              B (loop_sized_nil _) [] [] (advance st))
    as (ch & tk & st' & E & L).
  cbn [nt map]. rewrite E. exists (mkNode "S" ch None), tk, st'.
  split; [reflexivity | lia].
Qed.

End SeedSizes.

(** X19. A sentence of the seed grammar has between one and eleven tokens:
    whenever [generate] returns, with any lexicon, at any depth and on any
    stream, the tree it returns has at least one and at most eleven leaf
    tokens. *)
Theorem seed_sentence_length {F : Type} `{FloatOps F}
    (lexicon : Lexicon F) (depth : nat) (st st' : RandomState)
    (text : string) (tree : DerivationNode) (field : EmotionField F) :
  generate depth (generator_of Grammar_init lexicon) st
  = Ok (text, tree, field, st') ->
  1 <= length (leaf_tokens tree) <= 11.
Proof.
  intros E. apply generate_inv in E. destruct E as (toks & E & _).
  change (start (g (generator_of Grammar_init lexicon))) with "S" in E.
  assert (NQ : ~ picks_question st).
  { intros Q. rewrite (expand_S_question lexicon depth st Q) in E.
    discriminate E. }
  destruct (expand_tree _ _ _ _ _ _ _ E) as (-> & _).
  apply (expand_mono _ depth (5 + depth)) in E; [|lia].
  destruct (S_sized lexicon depth st NQ) as (n & t & s & E' & L).
  cbn [Nat.add] in E. rewrite E in E'. inversion E'; subst.
  exact L.
Qed.

Lemma seed_sentence_length_witness :
  1 <= length
         (leaf_tokens
            (mkNode "S"
               [mkNode "IMP"
                  [mkNode "V" [mkNode "<VERB>" [] (Some "like")] None] None]
               None)) <= 11.
Proof.
  apply (seed_sentence_length (@Lexicon_init fterm _) 5
           (mkRandom (fun k => 3 * k + 2) 0)
           (mkRandom (fun k => 3 * k + 2) 4) "Like."
           (mkNode "S"
              [mkNode "IMP"
                 [mkNode "V" [mkNode "<VERB>" [] (Some "like")] None] None]
              None)
           (mkEmotion (FTanh (FAdd (FLit 0 1) (FLit 6 1))))).
  reflexivity.
Defined.
